(** * Namespaced watch cache, owned-resource grouping and platform owner

    A shallow embedding of the Go packages [controllers] (the namespaced
    watch cache), [cloud] (OwnedResourcesGroup) and [platform]
    (InfrastrucutreOwner), followed by the properties established for them.

    Conventions of the embedding:
    - a Go [error] result is an [option error] ([None] is [nil]); a Go
      [(T, error)] result is a [result T];
    - a method with a pointer receiver that mutates the receiver's maps takes
      the receiver and returns it updated;
    - values that live outside the receiver (the channel behind [eventChan],
      the count of engines built by [cache.New]) are kept in a [heap];
    - the answers of the cluster during one call (whether [cache.New] or
      [GetInformer] fail) are a [World] argument of that call, so that two
      calls can meet different answers;
    - [klog] calls only write to the log and are left out. *)

From Stdlib Require Import ZArith.
From stdpp Require Import base option list strings gmap sets.

Local Open Scope string_scope.
Local Open Scope list_scope.

(** ** Go basics *)

Inductive error : Type :=
  | errorsNew (text : string)          (* errors.New(text) *)
  | fmtErrorf (text : string)          (* fmt.Errorf(format, ...), formatted *)
  | foreignError (text : string).      (* an error built by a collaborator *)

Definition Error (e : error) : string :=
  match e with
  | errorsNew t => t
  | fmtErrorf t => t
  | foreignError t => t
  end.

Inductive result (A : Type) : Type :=
  | Ok (a : A)
  | Err (err : error).
Arguments Ok {A} a.
Arguments Err {A} err.

(** A slice: [None] is the nil slice. Ranging over nil visits nothing. *)
Definition slice (A : Type) : Type := option (list A).
Definition range {A : Type} (s : slice A) : list A := default [] s.

(** time.Duration counts nanoseconds in an int64. *)
Definition Duration : Type := Z.
Definition Hour : Duration := (3600 * 1000000000)%Z.

(** ** k8s.io/apimachinery/pkg/runtime/schema *)

Record GroupKind : Type := mkGroupKind { GK_Group : string; GK_Kind : string }.
Record GroupVersionKind : Type :=
  mkGVK { Group : string; Version : string; Kind : string }.

#[global] Instance GroupKind_eq_dec : EqDecision GroupKind.
Proof. solve_decision. Defined.
#[global] Instance GroupVersionKind_eq_dec : EqDecision GroupVersionKind.
Proof. solve_decision. Defined.
#[global] Instance GroupVersionKind_countable : Countable GroupVersionKind.
Proof.
  refine (inj_countable' (λ k, (Group k, Version k, Kind k))
            (λ t, mkGVK t.1.1 t.1.2 t.2) _).
  by intros [].
Defined.

(** gvk.GroupKind() *)
Definition GVK_GroupKind (gvk : GroupVersionKind) : GroupKind :=
  {| GK_Group := Group gvk; GK_Kind := Kind gvk |}.

(** GroupKind.String(): the kind alone for the core group, else
    "<kind>.<group>". *)
Definition GroupKind_String (gk : GroupKind) : string :=
  if Nat.eqb (String.length (GK_Group gk)) 0 then GK_Kind gk
  else GK_Kind gk +:+ "." +:+ GK_Group gk.

(** ** client.Object and the values an informer hands to a handler *)

Record Object : Type := mkObject {
  goType : string;               (* the Go type behind the interface *)
  TypeMeta : GroupVersionKind;   (* what GetObjectKind() reports *)
  Namespace : string;
  Name : string;
}.

Definition GetName (obj : Object) : string := Name obj.
Definition GetNamespace (obj : Object) : string := Namespace obj.
Definition GetObjectKind_GroupVersionKind (obj : Object) : GroupVersionKind :=
  TypeMeta obj.

(** An [interface{}] argument: nil, a client.Object, or a value of another
    type (for instance a deletion tombstone). *)
Inductive payload : Type :=
  | nilPayload
  | objectPayload (obj : Object)
  | otherPayload (dynamicType : string).

(** event.GenericEvent *)
Record GenericEvent : Type := mkGenericEvent { EventObject : Object }.

(** ** Collaborators held by the cache *)

(** apiutil.GVKForObject(obj, scheme), as a function of the scheme. *)
Definition Scheme : Type := Object → result GroupVersionKind.
Definition GVKForObject (obj : Object) (s : Scheme) : result GroupVersionKind :=
  s obj.

Definition RESTScopeNameNamespace : string := "namespace".
Definition RESTScopeNameRoot : string := "root".
Record RESTMapping : Type := mkRESTMapping { Scope_Name : string }.

(** mapper.RESTMapping(groupKind) *)
Definition RESTMapper : Type := GroupKind → result RESTMapping.

Record restConfig : Type := mkRestConfig { Host : string }.

(** cache.Options *)
Record Options : Type := mkOptions {
  opt_Scheme : Scheme;
  opt_Mapper : RESTMapper;
  opt_Resync : Duration;
  opt_Namespace : string;
}.

(** ** package controllers: data *)

Definition defaultResyncTime : Duration := (10 * Hour)%Z.

Record CacheOptions : Type := mkCacheOptions {
  Config : option restConfig;
  Mapper : option RESTMapper;
  CScheme : option Scheme;
  Resync : option Duration;
}.

Record eventToChannelHandler : Type := mkHandler {
  eventsChan : nat;     (* address of the channel in the heap *)
  name : string;
}.

(** A watch-and-cache engine built by cache.New. [serial] is its identity:
    the number of engines built before it. [informers] holds, per kind, the
    handlers attached to that kind's informer. *)
Record Cache : Type := mkCache {
  serial : nat;
  options : Options;
  started : bool;
  informers : gmap GroupVersionKind (list eventToChannelHandler);
}.

(** A cache.Informer: the informer of one kind inside one engine. The engine
    is named by its [serial], as a pointer names it in the source. *)
Record Informer : Type := mkInformer {
  inf_engine : nat;
  inf_kind : GroupVersionKind;
}.

Record namespacedCache : Type := mkNamespacedCache {
  caches : gmap string Cache;
  config : restConfig;
  mapper : RESTMapper;
  scheme : Scheme;
  resync : Duration;
  eventChan : nat;      (* address of the channel in the heap *)
  watchedResources : gmap string (gset string);
}.

Record heap : Type := mkHeap {
  built : nat;                            (* engines built by cache.New *)
  channels : list (list GenericEvent);    (* per channel, what was sent *)
}.

Definition state : Type := namespacedCache * heap.

(** What the cluster answers during one call. *)
Record World : Type := mkWorld {
  NewDiscoveryRESTMapper : restConfig → result RESTMapper;
  cache_New_error : restConfig → Options → option error;
  GetInformer_error : string → GroupVersionKind → option error;
}.

Definition set_caches (f : gmap string Cache → gmap string Cache)
    (n : namespacedCache) : namespacedCache :=
  {| caches := f (caches n); config := config n; mapper := mapper n;
     scheme := scheme n; resync := resync n; eventChan := eventChan n;
     watchedResources := watchedResources n |}.

Definition set_watchedResources
    (f : gmap string (gset string) → gmap string (gset string))
    (n : namespacedCache) : namespacedCache :=
  {| caches := caches n; config := config n; mapper := mapper n;
     scheme := scheme n; resync := resync n; eventChan := eventChan n;
     watchedResources := f (watchedResources n) |}.

(** ** The channel and the engine, as far as the cache uses them *)

(** make(chan event.GenericEvent): a fresh channel address. *)
Definition make_chan (h : heap) : nat * heap :=
  (length (channels h),
   {| built := built h; channels := (channels h ++ [[]])%list |}).

(** [c <- ev]. The model records the sends on a channel in order; it does not
    model the blocking of an unbuffered send. *)
Definition send (c : nat) (ev : GenericEvent) (h : heap) : heap :=
  {| built := built h; channels := alter (λ q, (q ++ [ev])%list) c (channels h) |}.

(** cache.New(config, opts) *)
Definition cache_New (w : World) (cfg : restConfig) (opts : Options)
    (h : heap) : result Cache * heap :=
  match cache_New_error w cfg opts with
  | Some err => (Err err, h)
  | None =>
      (Ok {| serial := built h; options := opts; started := false;
             informers := ∅ |},
       {| built := S (built h); channels := channels h |})
  end.

(** c.Start(ctx), launched in a goroutine: synchronisation begins. *)
Definition Cache_Start (c : Cache) : Cache :=
  {| serial := serial c; options := options c; started := true;
     informers := informers c |}.

(** c.GetInformer(ctx, obj): resolves the kind with the engine's scheme and
    waits for that kind's informer. *)
Definition Cache_GetInformer (w : World) (c : Cache) (obj : Object)
    : result Informer :=
  match GVKForObject obj (opt_Scheme (options c)) with
  | Err err => Err err
  | Ok gvk =>
      match GetInformer_error w (opt_Namespace (options c)) gvk with
      | Some err => Err err
      | None =>
          Ok {| inf_engine := serial c; inf_kind := gvk |}
      end
  end.

Definition add_handler (k : GroupVersionKind) (e : eventToChannelHandler)
    (c : Cache) : Cache :=
  {| serial := serial c; options := options c; started := started c;
     informers :=
       <[k := (default [] (informers c !! k) ++ [e])%list]> (informers c) |}.

(** informer.AddEventHandler(e): the engine that owns the informer is updated
    wherever the pool refers to it. *)
Definition Informer_AddEventHandler (i : Informer) (e : eventToChannelHandler)
    (n : namespacedCache) : namespacedCache :=
  set_caches
    (fmap (λ c, if decide (serial c = inf_engine i)
                then add_handler (inf_kind i) e c else c)) n.

(** ** package controllers: operations *)

(** [scheme_Scheme] is the default Kubernetes scheme, scheme.Scheme. *)
Definition NewNamespacedCache (scheme_Scheme : Scheme) (w : World)
    (opts : CacheOptions) (h : heap) : result namespacedCache * heap :=
  match Config opts with
  | None => (Err (errorsNew "Config is required"), h)
  | Some cfg =>
      let sch := default scheme_Scheme (CScheme opts) in
      let mapped :=
        match Mapper opts with
        | Some m => Ok m
        | None =>
            match NewDiscoveryRESTMapper w cfg with
            | Err err =>
                Err (fmtErrorf
                       ("could not create RESTMapper from config: " +:+ Error err))
            | Ok m => Ok m
            end
        end in
      match mapped with
      | Err err => (Err err, h)
      | Ok m =>
          let rs := default defaultResyncTime (Resync opts) in
          let '(ch, h') := make_chan h in
          (Ok {| caches := ∅; config := cfg; mapper := m; scheme := sch;
                 resync := rs; eventChan := ch; watchedResources := ∅ |}, h')
      end
  end.

Definition EventStream (n : namespacedCache) : nat := eventChan n.

(** What has been sent on the cache's event stream so far. *)
Definition stream (st : state) : list GenericEvent :=
  default [] (channels st.2 !! EventStream st.1).

Definition isNamespaced (n : namespacedCache) (obj : Object) : result bool :=
  match GVKForObject obj (scheme n) with
  | Err err => Err err
  | Ok gvk =>
      match mapper n (GVK_GroupKind gvk) with
      | Err err => Err err
      | Ok mapping =>
          Ok (String.eqb (Scope_Name mapping) RESTScopeNameNamespace)
      end
  end.

Definition errNamespaceRequired : error :=
  errorsNew "namespaced objects must set their namespace".

Definition ensureNamespace (n : namespacedCache) (obj : Object)
    : option error :=
  match isNamespaced n obj with
  | Err err => Some err
  | Ok namespaced =>
      if namespaced && String.eqb (GetNamespace obj) ""
      then Some errNamespaceRequired
      else None
  end.

(** fmt.Sprintf("%s/%s", gvk.GroupKind().String(), obj.GetName()) *)
Definition watchKey (n : namespacedCache) (obj : Object) : result string :=
  match GVKForObject obj (scheme n) with
  | Err err => Err err
  | Ok gvk => Ok (GroupKind_String (GVK_GroupKind gvk) +:+ "/" +:+ GetName obj)
  end.

(** The cache.Options that getInformer passes to cache.New. *)
Definition engineOptions (n : namespacedCache) (ns : string) : Options :=
  {| opt_Scheme := scheme n; opt_Mapper := mapper n; opt_Resync := resync n;
     opt_Namespace := ns |}.

Definition getInformer (w : World) (obj : Object) (st : state)
    : result Informer * state :=
  let '(n, h) := st in
  match ensureNamespace n obj with
  | Some err => (Err err, st)
  | None =>
      match caches n !! GetNamespace obj with
      | Some c => (Cache_GetInformer w c obj, st)
      | None =>
          match cache_New w (config n)
                  (engineOptions n (GetNamespace obj)) h with
          | (Err err, h') => (Err err, (n, h'))
          | (Ok c, h') =>
              let n1 := set_caches (<[GetNamespace obj := c]>) n in
              let n2 := set_caches (alter Cache_Start (GetNamespace obj)) n1 in
              (Cache_GetInformer w c obj, (n2, h'))
          end
      end
  end.

(** The engine that a successful cache.New leaves in the pool for [ns]: built
    on heap [h] with the options of [n], and started. *)
Definition pooledEngine (n : namespacedCache) (ns : string) (h : heap)
    : Cache :=
  Cache_Start {| serial := built h; options := engineOptions n ns;
                 started := false; informers := ∅ |}.

(** When getInformer fails, [watch] returns nil. *)
Definition watch (w : World) (obj : Object) (st : state)
    : option error * state :=
  match getInformer w obj st with
  | (Err err, st1) => (None, st1)                    (* return nil *)
  | (Ok informer, (n1, h1)) =>
      match watchKey n1 obj with
      | Err err => (Some err, (n1, h1))
      | Ok key =>
          let n2 :=
            Informer_AddEventHandler informer
              {| name := GetName obj; eventsChan := eventChan n1 |} n1 in
          let namespacedWatches :=
            match watchedResources n2 !! GetNamespace obj with
            | Some m => m
            | None => ∅
            end in
          let n3 :=
            set_watchedResources
              (<[GetNamespace obj := {[key]} ∪ namespacedWatches]>) n2 in
          (None, (n3, h1))
      end
  end.

Definition Watch (w : World) (obj : Object) (st : state)
    : option error * state :=
  match ensureNamespace st.1 obj with
  | Some err => (Some err, st)
  | None =>
      match watchedResources st.1 !! GetNamespace obj with
      | None => watch w obj st
      | Some namespacedWatches =>
          match watchKey st.1 obj with
          | Err err => (Some err, st)
          | Ok key =>
              if decide (key ∈ namespacedWatches) then (None, st)
              else watch w obj st
          end
      end
  end.

(** queueEventForObject sends the event onto the channel. The branch on the
    name has an empty body, so both of its arms continue to the send. *)
Definition queueEventForObject (e : eventToChannelHandler) (o : payload)
    (h : heap) : heap :=
  match o with
  | nilPayload => h
  | otherPayload _ => h
  | objectPayload obj =>
      let h1 := if negb (String.eqb (GetName obj) (name e)) then h else h in
      send (eventsChan e) {| EventObject := obj |} h1
  end.

Definition OnAdd (e : eventToChannelHandler) (obj : payload) (h : heap) : heap :=
  queueEventForObject e obj h.
Definition OnUpdate (e : eventToChannelHandler) (oldobj obj : payload)
    (h : heap) : heap :=
  queueEventForObject e obj h.
Definition OnDelete (e : eventToChannelHandler) (obj : payload) (h : heap) : heap :=
  queueEventForObject e obj h.

(** ** The informer's side: delivering a change to the attached handlers *)

Inductive notification : Type :=
  | Added (obj : payload)
  | Updated (oldobj obj : payload)
  | Deleted (obj : payload).

Definition dispatch (nt : notification) (h : heap) (e : eventToChannelHandler)
    : heap :=
  match nt with
  | Added obj => OnAdd e obj h
  | Updated oldobj obj => OnUpdate e oldobj obj h
  | Deleted obj => OnDelete e obj h
  end.

(** The handlers attached to the informer of kind [k] in namespace [ns]. *)
Definition handlersOf (n : namespacedCache) (ns : string)
    (k : GroupVersionKind) : list eventToChannelHandler :=
  match caches n !! ns with
  | Some c => default [] (informers c !! k)
  | None => []
  end.

(** The informer of kind [k] in namespace [ns] observes a change and calls
    every handler attached to it, in order of attachment. *)
Definition deliver (ns : string) (k : GroupVersionKind) (nt : notification)
    (st : state) : state :=
  (st.1, foldl (dispatch nt) st.2 (handlersOf st.1 ns k)).

(** ** Sequences of calls on one cache *)

Inductive call : Type :=
  | CallWatch (w : World) (obj : Object)
  | CallEventStream
  | Notify (ns : string) (k : GroupVersionKind) (nt : notification).

Definition step (st : state) (c : call) : state :=
  match c with
  | CallWatch w obj => (Watch w obj st).2
  | CallEventStream => st
  | Notify ns k nt => deliver ns k nt st
  end.

Definition run (cs : list call) (st : state) : state := foldl step st cs.

(** A sequence of getInformer requests, each under its own answers of the
    cluster. *)
Definition requests (rs : list (World * Object)) (st : state) : state :=
  foldl (λ st rq, (getInformer rq.1 rq.2 st).2) st rs.

(** The keys registered for a namespace. *)
Definition registered (n : namespacedCache) (ns : string) : gset string :=
  default ∅ (watchedResources n !! ns).

(** ** package cloud *)

(** type OwnedResources []client.Object *)
Definition OwnedResources : Type := slice Object.

(** append(s, x) *)
Definition append {A : Type} (s : slice A) (x : A) : slice A :=
  Some (range s ++ [x])%list.

(** One pass of the inner loop body: [set] is the map used as a set,
    [resourceDistinct] the slice being built. *)
Definition visit (acc : gset GroupVersionKind * OwnedResources)
    (resource : Object) : gset GroupVersionKind * OwnedResources :=
  let '(set, resourceDistinct) := acc in
  let objType := GetObjectKind_GroupVersionKind resource in
  if decide (objType ∈ set) then (set, resourceDistinct)
  else ({[objType]} ∪ set, append resourceDistinct resource).

(** The two nested loops over [resourceUnion]. *)
Definition distinctOver (resourceUnion : list OwnedResources)
    : gset GroupVersionKind * OwnedResources :=
  foldl (λ acc platformGroup, foldl visit acc (range platformGroup))
        (∅, Some []) resourceUnion.

(** [GetAWSResources] stands for the result of cloud.GetAWSResources(), which
    is declared outside the files at hand. *)
Definition OwnedResourcesGroup (GetAWSResources : OwnedResources)
    : OwnedResources :=
  let resourceUnion := [GetAWSResources] in
  (distinctOver resourceUnion).2.

(** The claim's reading of the result: the resources of the union whose
    GroupVersionKind has not occurred at an earlier position, in order. *)
Definition firstOccurrences (union : list Object) : list Object :=
  mjoin (imap (λ i r,
                 if decide (GetObjectKind_GroupVersionKind r ∈
                            GetObjectKind_GroupVersionKind <$> take i union)
                 then [] else [r]) union).

(** ** package platform *)

(** configv1.PlatformType is a string type. *)
Definition PlatformType : Type := string.
Definition AWSPlatformType : PlatformType := "AWS".

(** configv1.Infrastructure, with the fields read here. *)
Record Infrastructure : Type := mkInfrastructure {
  infra_Name : string;
  Status_Platform : PlatformType;
}.

Record ObjectKey : Type := mkObjectKey {
  key_Namespace : string;
  key_Name : string;
}.

(** client.Client, as far as GetOwner uses it: Get(ctx, key, infra). *)
Definition Client : Type := ObjectKey → result Infrastructure.

Definition getResources (GetAWSResources : OwnedResources)
    (platformType : PlatformType) : slice Object :=
  if String.eqb platformType AWSPlatformType then GetAWSResources
  else None.

Definition GetOwner (GetAWSResources : OwnedResources) (c : Client)
    (key : ObjectKey) : option Infrastructure * slice Object * option error :=
  match c key with
  | Err err => (None, None, Some err)
  | Ok infra =>
      (Some infra, getResources GetAWSResources (Status_Platform infra), None)
  end.

(** ** A concrete cluster, used to run the model *)

Module Sample.

Definition configMapGVK : GroupVersionKind := mkGVK "" "v1" "ConfigMap".
Definition infrastructureGVK : GroupVersionKind :=
  mkGVK "config.openshift.io" "v1" "Infrastructure".

(** The scheme knows ConfigMap and Infrastructure by their Go type. *)
Definition theScheme : Scheme := λ obj,
  if String.eqb (goType obj) "*v1.ConfigMap" then Ok configMapGVK
  else if String.eqb (goType obj) "*v1.Infrastructure"
       then Ok infrastructureGVK
       else Err (foreignError "no kind is registered for the type").

(** ConfigMap is namespaced, Infrastructure is cluster-scoped. *)
Definition theMapper : RESTMapper := λ gk,
  if String.eqb (GK_Kind gk) "ConfigMap"
  then Ok (mkRESTMapping RESTScopeNameNamespace)
  else if String.eqb (GK_Kind gk) "Infrastructure"
       then Ok (mkRESTMapping RESTScopeNameRoot)
       else Err (foreignError "no matches for kind").

Definition configMap (ns nm : string) : Object :=
  mkObject "*v1.ConfigMap" configMapGVK ns nm.
Definition infrastructure (nm : string) : Object :=
  mkObject "*v1.Infrastructure" infrastructureGVK "" nm.

(** An object of a Go type that the scheme does not know. *)
Definition widget : Object :=
  mkObject "*v1.Widget" (mkGVK "example.com" "v1" "Widget") "kube-system" "w".

Definition ccConfig : Object := configMap "kube-system" "cc-config".
Definition otherConfig : Object := configMap "kube-system" "other-config".

(** A cluster that answers every request. *)
Definition healthy : World :=
  {| NewDiscoveryRESTMapper := λ _, Ok theMapper;
     cache_New_error := λ _ _, None;
     GetInformer_error := λ _ _, None |}.

(** A cluster on which cache.New fails. *)
Definition noEngine : World :=
  {| NewDiscoveryRESTMapper := λ _, Ok theMapper;
     cache_New_error := λ _ _, Some (foreignError "cache.New failed");
     GetInformer_error := λ _ _, None |}.

(** A cluster on which cache.New succeeds and GetInformer fails. *)
Definition noInformer : World :=
  {| NewDiscoveryRESTMapper := λ _, Ok theMapper;
     cache_New_error := λ _ _, None;
     GetInformer_error := λ _ _, Some (foreignError "informer not synced") |}.

Definition emptyHeap : heap := {| built := 0; channels := [] |}.

(** The cache right after NewNamespacedCache, and the heap with its
    channel. *)
Definition fresh : state :=
  ({| caches := ∅; config := mkRestConfig "https://api:6443";
      mapper := theMapper; scheme := theScheme;
      resync := defaultResyncTime; eventChan := 0;
      watchedResources := ∅ |},
   {| built := 0; channels := [[]] |}).

End Sample.

(** ** package platform: the owner's state, Init and Mapper *)

Module Owner.

Record InfrastrucutreOwner : Type := mkOwner {
  objects : slice Infrastructure;
}.

(** What Init meets: whether client.New succeeds and, if so, what
    c.List(ctx, infraList) answers (the Items on success). *)
Definition Listing : Type := result (result (slice Infrastructure)).

(** Init. [None] stands for the end of the process in klog.Fatalf. *)
Definition Init (env : Listing) (o : InfrastrucutreOwner)
    : option (bool * InfrastrucutreOwner) :=
  match env with
  | Err _ => None
  | Ok listed =>
      match listed with
      | Err _ => Some (false, o)
      | Ok items =>
          if Nat.eqb (length (range items)) 0 then Some (false, o)
          else Some (true, {| objects := items |})
      end
  end.

(** reconcile.Request *)
Record Request : Type := mkRequest { NamespacedName : ObjectKey }.

(** Mapper. [ObjectKeyFromObject] is client.ObjectKeyFromObject, which reads
    the namespace and the name of the object it is given at the time of the
    call, so each pass of the loop reads the current element. *)
Definition Mapper (ObjectKeyFromObject : Infrastructure → ObjectKey)
    (o : InfrastrucutreOwner) : Object → slice Request :=
  let mapObjects :=
    foldl (λ mapObjects infra,
             append mapObjects
               {| NamespacedName := ObjectKeyFromObject infra |})
          (Some []) (range (objects o)) in
  λ _, mapObjects.

End Owner.

(** ** Consistency of a cache with its heap *)

(** The key that [watchKey] builds for kind [k] and name [nm]. *)
Definition keyOf (k : GroupVersionKind) (nm : string) : string :=
  GroupKind_String (GVK_GroupKind k) +:+ "/" +:+ nm.

(** The payload that a notification hands to queueEventForObject. *)
Definition carried (nt : notification) : payload :=
  match nt with
  | Added obj => obj
  | Updated _ obj => obj
  | Deleted obj => obj
  end.


(** What holds of a cache built by NewNamespacedCache and used through Watch
    and through the notifications of its informers. *)
Record consistent (st : state) : Prop := mkConsistent {
  engines_bound : ∀ ns c, caches st.1 !! ns = Some c →
    options c = engineOptions st.1 ns ∧ started c = true ∧
    serial c < built st.2;
  engines_distinct : ∀ ns1 ns2 c1 c2,
    caches st.1 !! ns1 = Some c1 → caches st.1 !! ns2 = Some c2 →
    serial c1 = serial c2 → ns1 = ns2;
  handlers_wired : ∀ ns k e, e ∈ handlersOf st.1 ns k →
    eventsChan e = eventChan st.1 ∧ keyOf k (name e) ∈ registered st.1 ns;
  handlers_distinct : ∀ ns k, NoDup (name <$> handlersOf st.1 ns k);
  keys_handled : ∀ ns key, key ∈ registered st.1 ns →
    ∃ k e, e ∈ handlersOf st.1 ns k ∧ key = keyOf k (name e);
  stream_allocated : eventChan st.1 < length (channels st.2);
}.

(** An engine with at least the handlers of another, and otherwise equal. *)
Definition grown (c c' : Cache) : Prop :=
  serial c' = serial c ∧ options c' = options c ∧ started c' = started c ∧
  ∀ k, default [] (informers c !! k) `prefix_of` default [] (informers c' !! k).

(** * Properties *)

#[local] Set Warnings "-clear-no-such-hyp".

(** ** Tactics and first facts *)

Ltac destruct_match :=
  match goal with
  | |- context [match ?x with _ => _ end] => destruct x eqn:?
  | H : context [match ?x with _ => _ end] |- _ => destruct x eqn:?
  end.

Lemma ensureNamespace_resolves (n : namespacedCache) (obj : Object) :
  ensureNamespace n obj = None → ∃ gvk, GVKForObject obj (scheme n) = Ok gvk.
Proof.
  unfold ensureNamespace, isNamespaced.
  destruct (GVKForObject obj (scheme n)) as [gvk|err]; [eauto | discriminate].
Qed.

Lemma ensureNamespace_watchKey (n : namespacedCache) (obj : Object) :
  ensureNamespace n obj = None → ∃ key, watchKey n obj = Ok key.
Proof.
  intros [gvk Hgvk]%ensureNamespace_resolves.
  unfold watchKey. rewrite Hgvk. eauto.
Qed.

(** The sample state is what NewNamespacedCache returns on an empty heap. *)
Lemma fresh_is_new :
  NewNamespacedCache Sample.theScheme Sample.healthy
    {| Config := Some (mkRestConfig "https://api:6443");
       Mapper := None; CScheme := None; Resync := None |}
    Sample.emptyHeap
  = (Ok Sample.fresh.1, Sample.fresh.2).
Proof. reflexivity. Qed.

(** ** Key computation *)

(** C7. When the scheme resolves the object's kind, the watch key is the
    group-kind string, a slash and the object's name. The key is a function
    of the scheme and the object alone (no state is read or written beyond
    the scheme). watchKey fails with error [err] exactly when the resolution
    of the kind fails with [err], and isNamespaced then fails with that same
    error. *)
Theorem watchKey_spec (n : namespacedCache) (obj : Object) :
  (∀ gvk, GVKForObject obj (scheme n) = Ok gvk →
     watchKey n obj
     = Ok (GroupKind_String (GVK_GroupKind gvk) +:+ "/" +:+ GetName obj)) ∧
  (∀ err, watchKey n obj = Err err ↔ GVKForObject obj (scheme n) = Err err) ∧
  (∀ err, watchKey n obj = Err err → isNamespaced n obj = Err err) ∧
  (∀ n', scheme n' = scheme n → watchKey n' obj = watchKey n obj).
Proof.
  unfold watchKey, isNamespaced. repeat split.
  - intros gvk ->. reflexivity.
  - destruct (GVKForObject obj (scheme n)); congruence.
  - destruct (GVKForObject obj (scheme n)); congruence.
  - destruct (GVKForObject obj (scheme n)); congruence.
  - intros n' ->. reflexivity.
Qed.

Lemma watchKey_spec_witness :
  watchKey Sample.fresh.1 Sample.ccConfig = Ok "ConfigMap/cc-config".
Proof.
  apply (proj1 (watchKey_spec Sample.fresh.1 Sample.ccConfig)
           Sample.configMapGVK).
  reflexivity.
Defined.

(** ** Namespace validation *)

(** C4. For a namespace-scoped object with an empty namespace, Watch returns
    the missing-namespace error, and the session pool, the registry, the
    number of engines built and the event stream are as before the call. *)
Theorem Watch_rejects_missing_namespace (w : World) (obj : Object)
    (st : state) :
  isNamespaced st.1 obj = Ok true →
  GetNamespace obj = "" →
  (Watch w obj st).1 = Some errNamespaceRequired ∧
  (Watch w obj st).2 = st ∧
  caches (Watch w obj st).2.1 = caches st.1 ∧
  watchedResources (Watch w obj st).2.1 = watchedResources st.1 ∧
  built (Watch w obj st).2.2 = built st.2 ∧
  stream (Watch w obj st).2 = stream st.
Proof.
  intros Hns Hempty.
  assert (Watch w obj st = (Some errNamespaceRequired, st)) as ->.
  { unfold Watch, ensureNamespace. rewrite Hns, Hempty. reflexivity. }
  repeat split.
Qed.

Lemma Watch_rejects_missing_namespace_witness :
  let obj := Sample.configMap "" "cc-config" in
  (Watch Sample.healthy obj Sample.fresh).1 = Some errNamespaceRequired ∧
  stream (Watch Sample.healthy obj Sample.fresh).2 = [].
Proof.
  intros obj.
  destruct (Watch_rejects_missing_namespace Sample.healthy obj Sample.fresh)
    as (Herr & _ & _ & _ & _ & Hstream); [reflexivity | reflexivity |].
  split; [exact Herr | rewrite Hstream; reflexivity].
Defined.

(** ** Platform owner *)

(** C10. getResources returns the nil slice for every platform type other
    than AWS, and GetOwner on an Infrastructure whose status names such a
    platform returns the object, a nil resource list and no error. *)
Theorem getResources_unrecognized (aws : OwnedResources) (pt : PlatformType) :
  pt ≠ AWSPlatformType →
  getResources aws pt = None ∧
  ∀ (c : Client) (key : ObjectKey) (infra : Infrastructure),
    c key = Ok infra → Status_Platform infra = pt →
    GetOwner aws c key = (Some infra, None, None).
Proof.
  intros Hpt.
  assert (getResources aws pt = None) as Hnil.
  { unfold getResources. apply String.eqb_neq in Hpt. rewrite Hpt. reflexivity. }
  split; [exact Hnil |].
  intros c key infra Hget Hplat. unfold GetOwner. rewrite Hget, Hplat, Hnil.
  reflexivity.
Qed.

Lemma getResources_unrecognized_witness :
  let infra := mkInfrastructure "cluster" "Azure" in
  getResources (Some [Sample.ccConfig]) "Azure" = None ∧
  GetOwner (Some [Sample.ccConfig]) (λ _, Ok infra) (mkObjectKey "" "cluster")
  = (Some infra, None, None).
Proof.
  intros infra.
  destruct (getResources_unrecognized (Some [Sample.ccConfig]) "Azure")
    as [Hnil Howner]; [discriminate |].
  split; [exact Hnil | apply Howner; reflexivity].
Defined.

(** ** Grouping of owned resources *)

Section grouping.

Abbreviation kindOf := GetObjectKind_GroupVersionKind.

Lemma firstOccurrences_snoc (p : list Object) (x : Object) :
  firstOccurrences (p ++ [x])
  = (firstOccurrences p ++ if decide (kindOf x ∈ kindOf <$> p) then [] else [x])%list.
Proof.
  unfold firstOccurrences.
  rewrite imap_app, join_app. f_equal.
  - f_equal. apply imap_ext. intros i r Hi. simpl.
    rewrite take_app_le; [reflexivity |].
    apply lookup_lt_Some in Hi. lia.
  - simpl. rewrite Nat.add_0_r, take_app_length, app_nil_r. reflexivity.
Qed.

Lemma firstOccurrences_sublist (u : list Object) :
  sublist (firstOccurrences u) u.
Proof.
  induction u as [|x p IH] using rev_ind; [constructor |].
  rewrite firstOccurrences_snoc. apply sublist_app; [exact IH |].
  case_decide; [apply sublist_nil_l | reflexivity].
Qed.

Lemma firstOccurrences_kinds (u : list Object) (k : GroupVersionKind) :
  k ∈ kindOf <$> firstOccurrences u ↔ k ∈ kindOf <$> u.
Proof.
  induction u as [|x p IH] using rev_ind; [reflexivity |].
  rewrite firstOccurrences_snoc, !fmap_app, !elem_of_app, IH.
  case_decide as Hin; simpl; [| reflexivity].
  split.
  - intros [H | H]; [left; exact H | inversion H].
  - intros [H | ->%list_elem_of_singleton]; left; assumption.
Qed.

Lemma firstOccurrences_NoDup (u : list Object) :
  NoDup (kindOf <$> firstOccurrences u).
Proof.
  induction u as [|x p IH] using rev_ind; [constructor |].
  rewrite firstOccurrences_snoc, fmap_app.
  case_decide as Hin; simpl; [rewrite app_nil_r; exact IH |].
  apply NoDup_app. split; [exact IH |]. split; [| apply NoDup_singleton].
  intros k Hk ->%list_elem_of_singleton.
  apply Hin, firstOccurrences_kinds, Hk.
Qed.

(** The loop invariant: after the resources [p], the set holds their kinds
    and the slice holds their first occurrences. *)
Lemma visit_spec (p : list Object) (x : Object) :
  visit (list_to_set (kindOf <$> p), Some (firstOccurrences p)) x
  = (list_to_set (kindOf <$> (p ++ [x])), Some (firstOccurrences (p ++ [x]))).
Proof.
  unfold visit. rewrite firstOccurrences_snoc, fmap_app, list_to_set_app_L.
  simpl. case_decide as Hset; case_decide as Hlist.
  - rewrite app_nil_r. f_equal. set_solver.
  - exfalso. apply Hlist. set_solver.
  - exfalso. apply Hset. set_solver.
  - unfold append. simpl. f_equal. set_solver.
Qed.

Lemma foldl_visit_spec (l p : list Object) :
  foldl visit (list_to_set (kindOf <$> p), Some (firstOccurrences p)) l
  = (list_to_set (kindOf <$> (p ++ l)), Some (firstOccurrences (p ++ l))).
Proof.
  revert p. induction l as [|x l IH]; intros p; cbn [foldl].
  - rewrite app_nil_r. reflexivity.
  - rewrite visit_spec, IH, <- app_assoc. reflexivity.
Qed.

Lemma foldl_groups_spec (gs : list OwnedResources) (p : list Object) :
  foldl (λ acc g, foldl visit acc (range g))
        (list_to_set (kindOf <$> p), Some (firstOccurrences p)) gs
  = (list_to_set (kindOf <$> (p ++ mjoin (range <$> gs))),
     Some (firstOccurrences (p ++ mjoin (range <$> gs)))).
Proof.
  revert p. induction gs as [|g gs IH]; intros p; cbn [foldl fmap list_fmap mjoin list_join].
  - rewrite app_nil_r. reflexivity.
  - rewrite foldl_visit_spec, IH, <- app_assoc. reflexivity.
Qed.

Lemma distinctOver_spec (resourceUnion : list OwnedResources) :
  distinctOver resourceUnion
  = (list_to_set (kindOf <$> mjoin (range <$> resourceUnion)),
     Some (firstOccurrences (mjoin (range <$> resourceUnion)))).
Proof. apply (foldl_groups_spec resourceUnion []). Qed.

(** C9. The result of OwnedResourcesGroup holds every GroupVersionKind at
    most once; it is the list of those resources of the union of the
    per-platform lists whose GroupVersionKind has not occurred at an
    earlier position of the union, in the order of the union; and it
    covers every GroupVersionKind of the union. *)
Theorem OwnedResourcesGroup_distinct (GetAWSResources : OwnedResources) :
  let union := mjoin (range <$> [GetAWSResources]) in
  let distinct := range (OwnedResourcesGroup GetAWSResources) in
  NoDup (kindOf <$> distinct) ∧
  distinct = firstOccurrences union ∧
  sublist distinct union ∧
  (∀ k, k ∈ kindOf <$> distinct ↔ k ∈ kindOf <$> union).
Proof.
  intros union distinct.
  assert (distinct = firstOccurrences union) as ->.
  { unfold distinct, OwnedResourcesGroup.
    rewrite distinctOver_spec. reflexivity. }
  split; [apply firstOccurrences_NoDup |].
  split; [reflexivity |].
  split; [apply firstOccurrences_sublist | apply firstOccurrences_kinds].
Qed.

End grouping.

(** ** The session pool and the registry *)

Section pool.

Implicit Types (w : World) (obj : Object) (n : namespacedCache) (h : heap).
Implicit Types (st : state) (ns key : string).

(** getInformer, with the three ways in which it leaves the pool alone and
    the one way in which it extends it. *)
Lemma getInformer_outcome w obj n h :
  getInformer w obj (n, h) =
  match ensureNamespace n obj with
  | Some err => (Err err, (n, h))
  | None =>
      match caches n !! GetNamespace obj with
      | Some c => (Cache_GetInformer w c obj, (n, h))
      | None =>
          match cache_New_error w (config n)
                  (engineOptions n (GetNamespace obj)) with
          | Some err => (Err err, (n, h))
          | None =>
              (Cache_GetInformer w (pooledEngine n (GetNamespace obj) h) obj,
               (set_caches
                  (<[GetNamespace obj := pooledEngine n (GetNamespace obj) h]>)
                  n,
                {| built := S (built h); channels := channels h |}))
          end
      end
  end.
Proof.
  unfold getInformer, cache_New.
  destruct (ensureNamespace n obj); [reflexivity |].
  destruct (caches n !! GetNamespace obj); [reflexivity |].
  destruct (cache_New_error w _ _); [reflexivity |].
  unfold set_caches; simpl. rewrite alter_insert_eq. reflexivity.
Qed.

Lemma getInformer_stored w obj n h :
  is_Some (caches n !! GetNamespace obj) →
  (getInformer w obj (n, h)).2 = (n, h).
Proof.
  intros [c Hc]. rewrite getInformer_outcome, Hc.
  destruct (ensureNamespace n obj); reflexivity.
Qed.

Lemma getInformer_keeps w obj st ns c :
  caches st.1 !! ns = Some c →
  caches (getInformer w obj st).2.1 !! ns = Some c.
Proof.
  destruct st as [n h]. intros Hc. simpl in Hc. rewrite getInformer_outcome.
  repeat destruct_match; simpl; try assumption.
  rewrite lookup_insert_ne; [assumption | congruence].
Qed.

Lemma getInformer_frame w obj st :
  watchedResources (getInformer w obj st).2.1 = watchedResources st.1 ∧
  scheme (getInformer w obj st).2.1 = scheme st.1 ∧
  mapper (getInformer w obj st).2.1 = mapper st.1 ∧
  eventChan (getInformer w obj st).2.1 = eventChan st.1 ∧
  channels (getInformer w obj st).2.2 = channels st.2.
Proof.
  destruct st as [n h]. rewrite getInformer_outcome.
  repeat destruct_match; repeat split.
Qed.

(** An informer that getInformer returns belongs to the engine stored for
    the object's namespace. *)
Lemma getInformer_Ok w obj st i :
  (getInformer w obj st).1 = Ok i →
  ∃ c, caches (getInformer w obj st).2.1 !! GetNamespace obj = Some c ∧
       serial c = inf_engine i.
Proof.
  destruct st as [n h]. rewrite getInformer_outcome.
  unfold Cache_GetInformer.
  repeat destruct_match; simpl; intros; simplify_eq; simpl.
  - eexists; split; [eassumption | reflexivity].
  - eexists; split; [apply lookup_insert_eq | reflexivity].
Qed.

Lemma ensureNamespace_frame n n' obj :
  scheme n' = scheme n → mapper n' = mapper n →
  ensureNamespace n' obj = ensureNamespace n obj.
Proof. unfold ensureNamespace, isNamespaced. intros -> ->. reflexivity. Qed.

Lemma watchKey_frame n n' obj :
  scheme n' = scheme n → watchKey n' obj = watchKey n obj.
Proof. unfold watchKey. intros ->. reflexivity. Qed.

(** [watch], by the outcome of getInformer and of watchKey. *)
Lemma watch_outcome w obj st :
  watch w obj st =
  match (getInformer w obj st).1 with
  | Err _ => (None, (getInformer w obj st).2)
  | Ok informer =>
      let n1 := (getInformer w obj st).2.1 in
      match watchKey st.1 obj with
      | Err err => (Some err, (getInformer w obj st).2)
      | Ok key =>
          (None,
           (set_watchedResources
              (<[GetNamespace obj :=
                   {[key]} ∪ registered st.1 (GetNamespace obj)]>)
              (Informer_AddEventHandler informer
                 {| name := GetName obj; eventsChan := eventChan st.1 |} n1),
            (getInformer w obj st).2.2))
      end
  end.
Proof.
  unfold watch.
  destruct (getInformer_frame w obj st) as (Hreg & Hsch & _ & Hch & _).
  destruct (getInformer w obj st) as [[i|err] [n1 h1]]; simpl in *;
    [| reflexivity].
  rewrite (watchKey_frame st.1 n1) by assumption.
  destruct (watchKey st.1 obj); [| reflexivity].
  rewrite Hch, Hreg. unfold registered, default. 
  destruct (watchedResources st.1 !! GetNamespace obj); reflexivity.
Qed.

Lemma handlersOf_attach n ns c (i : Informer) (e : eventToChannelHandler) :
  caches n !! ns = Some c → serial c = inf_engine i →
  e ∈ handlersOf (Informer_AddEventHandler i e n) ns (inf_kind i).
Proof.
  intros Hc Hserial. unfold handlersOf, Informer_AddEventHandler; simpl.
  rewrite lookup_fmap, Hc; simpl. rewrite decide_True by assumption.
  unfold add_handler; simpl. rewrite lookup_insert_eq; simpl.
  apply elem_of_app. right. apply list_elem_of_singleton. reflexivity.
Qed.

(** Watch either returns at once with the state as it was, or runs [watch]
    on that same state. *)
Lemma Watch_outcome w obj st :
  Watch w obj st = watch w obj st ∨
  (Watch w obj st).2 = st ∧
  ((∃ err, (Watch w obj st).1 = Some err) ∨
   (Watch w obj st).1 = None ∧
   ∃ key, watchKey st.1 obj = Ok key ∧ key ∈ registered st.1 (GetNamespace obj)).
Proof.
  unfold Watch, registered.
  destruct (ensureNamespace st.1 obj); [right; eauto |].
  destruct (watchedResources st.1 !! GetNamespace obj); [| left; reflexivity].
  destruct (watchKey st.1 obj); [| right; eauto].
  case_decide; [right | left; reflexivity].
  split; [reflexivity |]. right. eauto.
Qed.

Lemma watch_registry w obj st ns :
  watchedResources (watch w obj st).2.1 !! ns = watchedResources st.1 !! ns ∨
  ∃ i key,
    (getInformer w obj st).1 = Ok i ∧ watchKey st.1 obj = Ok key ∧
    (watch w obj st).1 = None ∧ ns = GetNamespace obj ∧
    watchedResources (watch w obj st).2.1 !! ns
    = Some ({[key]} ∪ registered st.1 ns).
Proof.
  rewrite watch_outcome.
  destruct (getInformer_frame w obj st) as (Hreg & _).
  destruct ((getInformer w obj st).1) as [i|err]; simpl;
    [| left; rewrite Hreg; reflexivity].
  destruct (watchKey st.1 obj) as [key|err]; simpl;
    [| left; rewrite Hreg; reflexivity].
  rewrite Hreg. destruct (decide (ns = GetNamespace obj)) as [->|Hne].
  - right. exists i, key. rewrite lookup_insert_eq. repeat split.
  - left. rewrite lookup_insert_ne by congruence. reflexivity.
Qed.

(** C5. The registry is written last. Whenever Watch returns an error, the
    registry is exactly as before the call; the same holds whenever the
    acquisition of the informer fails; and whenever the registry does change,
    Watch has returned nil and the Forwarder bound to the object's name is
    already attached to an informer of the engine of the object's
    namespace. *)
Theorem Watch_error_keeps_registry w obj st :
  (∀ err, (Watch w obj st).1 = Some err →
     watchedResources (Watch w obj st).2.1 = watchedResources st.1) ∧
  (∀ err, (getInformer w obj st).1 = Err err →
     watchedResources (Watch w obj st).2.1 = watchedResources st.1) ∧
  (watchedResources (Watch w obj st).2.1 ≠ watchedResources st.1 →
     (Watch w obj st).1 = None ∧
     ∃ k, {| eventsChan := eventChan st.1; name := GetName obj |}
          ∈ handlersOf (Watch w obj st).2.1 (GetNamespace obj) k).
Proof.
  destruct (getInformer_frame w obj st) as (Hreg & _).
  destruct (Watch_outcome w obj st) as [-> | [-> _]];
    [| repeat split; intros; congruence].
  rewrite watch_outcome.
  destruct ((getInformer w obj st).1) as [i|err0] eqn:Hi; simpl.
  - destruct (watchKey st.1 obj) as [key|err1]; simpl.
    + split; [discriminate |]. split; [discriminate |].
      intros _. split; [reflexivity |]. exists (inf_kind i).
      destruct (getInformer_Ok w obj st i Hi) as (c & Hc & Hserial).
      apply (handlersOf_attach _ _ c); assumption.
    + repeat split; intros; congruence.
  - repeat split; intros; congruence.
Qed.

Lemma Watch_error_keeps_registry_witness :
  let obj := Sample.widget in
  watchedResources (Watch Sample.healthy obj Sample.fresh).2.1
  = watchedResources Sample.fresh.1.
Proof.
  intros obj.
  apply (proj1 (Watch_error_keeps_registry Sample.healthy obj Sample.fresh)
           (foreignError "no kind is registered for the type")).
  reflexivity.
Defined.

(** *** The registry only grows *)

Lemma Watch_registered_mono w obj st ns :
  registered st.1 ns ⊆ registered (Watch w obj st).2.1 ns.
Proof.
  destruct (Watch_outcome w obj st) as [-> | [-> _]]; [| reflexivity].
  unfold registered at 1 2.
  destruct (watch_registry w obj st ns)
    as [-> | (i & key & _ & _ & _ & _ & ->)]; [reflexivity |].
  simpl. fold (registered st.1 ns). set_solver.
Qed.

Lemma step_registered_mono (c : call) st ns :
  registered st.1 ns ⊆ registered (step st c).1 ns.
Proof.
  destruct c as [w obj | | ns' k nt]; simpl;
    [apply Watch_registered_mono | reflexivity | reflexivity].
Qed.

(** C8. Over any sequence of Watch calls, EventStream calls and informer
    notifications, from any state of the cache, every key registered for a
    namespace is still registered for it at the end: no call removes an
    entry of the registry. *)
Theorem registry_grows (cs : list call) st ns :
  registered st.1 ns ⊆ registered (run cs st).1 ns.
Proof.
  unfold run. revert st. induction cs as [|c cs IH]; intros st; simpl.
  - reflexivity.
  - etransitivity; [apply step_registered_mono | apply IH].
Qed.

(** *** The pool is memoized *)

Lemma requests_keep (rs : list (World * Object)) st ns c :
  caches st.1 !! ns = Some c → caches (requests rs st).1 !! ns = Some c.
Proof.
  unfold requests. revert st.
  induction rs as [|[w obj] rs IH]; intros st Hc; simpl; [assumption |].
  apply IH, getInformer_keeps, Hc.
Qed.

(** C6. A getInformer request for a namespace that has no engine in the pool
    (the empty namespace of cluster-scoped kinds included), when validation
    passes and cache.New succeeds, builds exactly one engine, bound to that
    namespace and started, and stores it under the namespace. After any
    further getInformer requests, the pool still holds that same engine for
    the namespace, and a request for the namespace leaves the whole state as
    it is (no engine is built) and can only return an informer of the stored
    engine. *)
Theorem getInformer_memoized w obj st :
  ensureNamespace st.1 obj = None →
  caches st.1 !! GetNamespace obj = None →
  cache_New_error w (config st.1) (engineOptions st.1 (GetNamespace obj))
  = None →
  let ns := GetNamespace obj in
  let c := pooledEngine st.1 ns st.2 in
  let st1 := (getInformer w obj st).2 in
  caches st1.1 = <[ns := c]> (caches st.1) ∧
  built st1.2 = S (built st.2) ∧
  serial c = built st.2 ∧ opt_Namespace (options c) = ns ∧ started c = true ∧
  ∀ (rs : list (World * Object)) (w' : World) (obj' : Object),
    GetNamespace obj' = ns →
    let st2 := requests rs st1 in
    caches st2.1 !! ns = Some c ∧
    (getInformer w' obj' st2).2 = st2 ∧
    ∀ i, (getInformer w' obj' st2).1 = Ok i → inf_engine i = serial c.
Proof.
  intros Hvalid Hnone Hnew ns c st1.
  assert (caches st1.1 = <[ns := c]> (caches st.1) ∧
          built st1.2 = S (built st.2)) as [Hpool Hbuilt].
  { subst st1. destruct st as [n h]. simpl in Hvalid, Hnone, Hnew.
    rewrite getInformer_outcome, Hvalid, Hnone, Hnew. split; reflexivity. }
  repeat split; try assumption.
  - apply requests_keep. rewrite Hpool. apply lookup_insert_eq.
  - destruct (requests rs st1) as [n2 h2] eqn:Hst2.
    apply getInformer_stored. exists c. rewrite H.
    change n2 with (n2, h2).1. rewrite <- Hst2.
    apply requests_keep. rewrite Hpool. apply lookup_insert_eq.
  - intros i Hi.
    destruct (getInformer_Ok _ _ _ _ Hi) as (c' & Hc' & <-).
    rewrite getInformer_keeps with (c := c) in Hc'; [congruence |].
    rewrite H. apply requests_keep. rewrite Hpool. apply lookup_insert_eq.
Qed.

Lemma getInformer_memoized_witness :
  let obj := Sample.infrastructure "cluster" in
  let st1 := (getInformer Sample.healthy obj Sample.fresh).2 in
  built st1.2 = 1 ∧
  (getInformer Sample.noEngine obj
     (requests [(Sample.healthy, Sample.ccConfig)] st1)).2
  = requests [(Sample.healthy, Sample.ccConfig)] st1.
Proof.
  intros obj st1.
  destruct (getInformer_memoized Sample.healthy obj Sample.fresh)
    as (_ & Hbuilt & _ & _ & _ & Hlater);
    [reflexivity | reflexivity | reflexivity |].
  split; [exact Hbuilt |].
  apply (Hlater [(Sample.healthy, Sample.ccConfig)] Sample.noEngine obj).
  reflexivity.
Defined.

(** *** Failure while acquiring the informer *)

(** C2 (as amended). Take a Watch call on an object that passes validation
    and is not yet registered, during which getInformer fails. Then the
    state after Watch is the state getInformer left, the registry, the
    attached handlers and the event stream are as before, and:
    - if the pool already held an engine for the namespace, or the
      construction of the engine failed, the whole state is as before the
      call (a namespace without engine stays without engine);
    - if the engine was built and the informer accessor then failed, the
      started engine is stored in the pool under the namespace. *)
Theorem Watch_acquisition_failure w obj st (err : error) :
  ensureNamespace st.1 obj = None →
  (∀ key, watchKey st.1 obj = Ok key →
          key ∉ registered st.1 (GetNamespace obj)) →
  (getInformer w obj st).1 = Err err →
  let ns := GetNamespace obj in
  let st' := (Watch w obj st).2 in
  st' = (getInformer w obj st).2 ∧
  watchedResources st'.1 = watchedResources st.1 ∧
  (∀ ns' k, handlersOf st'.1 ns' k = handlersOf st.1 ns' k) ∧
  stream st' = stream st ∧
  match caches st.1 !! ns with
  | Some _ => st' = st
  | None =>
      match cache_New_error w (config st.1) (engineOptions st.1 ns) with
      | Some _ => st' = st ∧ caches st'.1 !! ns = None
      | None =>
          caches st'.1 = <[ns := pooledEngine st.1 ns st.2]> (caches st.1) ∧
          built st'.2 = S (built st.2)
      end
  end.
Proof.
  intros Hvalid Hfresh Hfail ns st'.
  assert (st' = (getInformer w obj st).2) as Hst'.
  { subst st'. destruct (Watch_outcome w obj st)
      as [-> | [_ [[e He] | [_ (key & Hkey & Hin)]]]].
    - rewrite watch_outcome, Hfail. reflexivity.
    - exfalso. revert He. unfold Watch. rewrite Hvalid.
      destruct (ensureNamespace_watchKey _ _ Hvalid) as [key Hkey].
      rewrite Hkey. specialize (Hfresh key Hkey). unfold registered in Hfresh.
      destruct (watchedResources st.1 !! GetNamespace obj); simpl in *.
      + rewrite decide_False by assumption.
        rewrite watch_outcome, Hfail. discriminate.
      + rewrite watch_outcome, Hfail. discriminate.
    - exfalso. exact (Hfresh key Hkey Hin). }
  clearbody st'. subst st'. revert Hfail.
  destruct st as [n h]. simpl in Hvalid.
  rewrite getInformer_outcome, Hvalid. subst ns. cbn [fst snd].
  destruct (caches n !! GetNamespace obj) as [c|] eqn:Hpool; simpl.
  { intros _. repeat split. }
  destruct (cache_New_error w (config n) _) as [e|]; simpl.
  { intros _. repeat split. assumption. }
  intros _. repeat split.
  intros ns' k. unfold handlersOf; simpl.
  destruct (decide (ns' = GetNamespace obj)) as [->|Hne].
  - rewrite lookup_insert_eq, Hpool. reflexivity.
  - rewrite lookup_insert_ne by congruence. reflexivity.
Qed.

Lemma Watch_acquisition_failure_witness :
  (Watch Sample.noEngine Sample.ccConfig Sample.fresh).2 = Sample.fresh ∧
  caches (Watch Sample.noEngine Sample.ccConfig Sample.fresh).2.1
    !! "kube-system" = None.
Proof.
  destruct (Watch_acquisition_failure Sample.noEngine Sample.ccConfig
              Sample.fresh (foreignError "cache.New failed"))
    as (_ & _ & _ & _ & H).
  - reflexivity.
  - intros key _. unfold registered. simpl. set_solver.
  - reflexivity.
  - exact H.
Defined.

(** C2, as stated, fails where the engine is built and the informer accessor
    then fails: getInformer reports the accessor's error, and after the
    Watch call the namespace is memoized in the pool with the started
    engine. *)
Lemma Watch_accessor_failure_memoizes :
  (getInformer Sample.noInformer Sample.ccConfig Sample.fresh).1
  = Err (foreignError "informer not synced") ∧
  caches Sample.fresh.1 !! "kube-system" = None ∧
  caches (Watch Sample.noInformer Sample.ccConfig Sample.fresh).2.1
    !! "kube-system"
  = Some (pooledEngine Sample.fresh.1 "kube-system" Sample.fresh.2) ∧
  ¬ ((Watch Sample.noInformer Sample.ccConfig Sample.fresh).1
     = Some (foreignError "informer not synced") ∧
     caches (Watch Sample.noInformer Sample.ccConfig Sample.fresh).2.1
       !! "kube-system" = None).
Proof.
  assert (caches (Watch Sample.noInformer Sample.ccConfig Sample.fresh).2.1
            !! "kube-system"
          = Some (pooledEngine Sample.fresh.1 "kube-system" Sample.fresh.2))
    as Hpool by (vm_compute; reflexivity).
  split; [reflexivity |]. split; [reflexivity |]. split; [exact Hpool |].
  intros [_ Hnone]. rewrite Hpool in Hnone. discriminate.
Qed.

(** *** Repeated Watch calls *)

Lemma Watch_frame w obj st :
  scheme (Watch w obj st).2.1 = scheme st.1 ∧
  mapper (Watch w obj st).2.1 = mapper st.1 ∧
  eventChan (Watch w obj st).2.1 = eventChan st.1 ∧
  channels (Watch w obj st).2.2 = channels st.2.
Proof.
  destruct (getInformer_frame w obj st) as (_ & Hsch & Hmap & Hch & Hchs).
  destruct (Watch_outcome w obj st) as [-> | [-> _]]; [| repeat split].
  rewrite watch_outcome.
  destruct ((getInformer w obj st).1); [| repeat split; assumption].
  destruct (watchKey st.1 obj); repeat split; assumption.
Qed.

(** A Watch call on an object whose key is registered returns nil and leaves
    the state as it is, whatever the cluster answers. *)
Lemma Watch_registered_noop w obj st key :
  ensureNamespace st.1 obj = None →
  watchKey st.1 obj = Ok key →
  key ∈ registered st.1 (GetNamespace obj) →
  Watch w obj st = (None, st).
Proof.
  intros Hvalid Hkey Hin. unfold Watch. rewrite Hvalid, Hkey.
  unfold registered in Hin.
  destruct (watchedResources st.1 !! GetNamespace obj); simpl in Hin.
  - rewrite decide_True by assumption. reflexivity.
  - set_solver.
Qed.

(** A Watch call that acquires its informer and returns nil has the key
    registered afterwards. *)
Lemma Watch_registers w obj st (i : Informer) :
  (Watch w obj st).1 = None →
  (getInformer w obj st).1 = Ok i →
  ensureNamespace st.1 obj = None ∧
  ∃ key, watchKey st.1 obj = Ok key ∧
         key ∈ registered (Watch w obj st).2.1 (GetNamespace obj).
Proof.
  intros Hnil Hi.
  assert (ensureNamespace st.1 obj = None) as Hvalid.
  { revert Hnil. unfold Watch.
    destruct (ensureNamespace st.1 obj); [discriminate | reflexivity]. }
  split; [exact Hvalid |].
  destruct (ensureNamespace_watchKey _ _ Hvalid) as [key Hkey].
  exists key. split; [exact Hkey |].
  destruct (Watch_outcome w obj st)
    as [-> | [-> [[e He] | [_ (key' & Hkey' & Hin)]]]]; [| congruence | congruence].
  rewrite watch_outcome, Hi, Hkey. unfold registered; simpl.
  rewrite lookup_insert_eq. simpl. set_solver.
Qed.

(** Idempotence once registered: after a Watch call that acquired its
    informer and returned nil, any number of further Watch calls on the same
    object, under any answers of the cluster, return nil and leave the state
    as it is. *)
Lemma Watch_idempotent_once_registered w obj st (i : Informer)
    (ws : list World) :
  (Watch w obj st).1 = None →
  (getInformer w obj st).1 = Ok i →
  Forall (λ w', Watch w' obj (Watch w obj st).2 = (None, (Watch w obj st).2)) ws ∧
  run ((λ w', CallWatch w' obj) <$> ws) (Watch w obj st).2 = (Watch w obj st).2.
Proof.
  intros Hnil Hi.
  destruct (Watch_registers w obj st i Hnil Hi) as (Hvalid & key & Hkey & Hin).
  destruct (Watch_frame w obj st) as (Hsch & Hmap & _).
  assert (∀ w', Watch w' obj (Watch w obj st).2 = (None, (Watch w obj st).2))
    as Hnoop.
  { intros w'. apply (Watch_registered_noop _ _ _ key).
    - rewrite (ensureNamespace_frame st.1) by assumption. exact Hvalid.
    - rewrite (watchKey_frame st.1) by assumption. exact Hkey.
    - exact Hin. }
  split; [apply Forall_forall; intros w' _; apply Hnoop |].
  unfold run. induction ws as [|w' ws IH]; simpl; [reflexivity |].
  rewrite Hnoop. exact IH.
Qed.

(** C3. Watch can return nil without having registered anything. On a fresh
    cache, a Watch call during which cache.New fails returns nil and leaves
    the state as it was; the next Watch call on the same object, on a healthy
    cluster, returns nil as well and builds an engine, attaches a Forwarder
    and adds a registry entry. *)
Theorem Watch_nil_without_registration :
  Watch Sample.noEngine Sample.ccConfig Sample.fresh = (None, Sample.fresh) ∧
  (Watch Sample.healthy Sample.ccConfig
     (Watch Sample.noEngine Sample.ccConfig Sample.fresh).2).1 = None ∧
  built (Watch Sample.healthy Sample.ccConfig
           (Watch Sample.noEngine Sample.ccConfig Sample.fresh).2).2.2 = 1 ∧
  handlersOf (Watch Sample.healthy Sample.ccConfig
                (Watch Sample.noEngine Sample.ccConfig Sample.fresh).2).2.1
    "kube-system" Sample.configMapGVK
  = [{| eventsChan := 0; name := "cc-config" |}] ∧
  registered (Watch Sample.healthy Sample.ccConfig
                (Watch Sample.noEngine Sample.ccConfig Sample.fresh).2).2.1
    "kube-system"
  = {["ConfigMap/cc-config"]}.
Proof.
  split; [reflexivity |]. split; [reflexivity |]. split; [reflexivity |].
  split; [reflexivity |]. vm_compute. reflexivity.
Qed.

(** ** The Forwarder *)

(** A nil payload and a payload that is not a client.Object are dropped. *)
Lemma queueEventForObject_drops e h :
  queueEventForObject e nilPayload h = h ∧
  ∀ t, queueEventForObject e (otherPayload t) h = h.
Proof. split; reflexivity. Qed.

(** Every client.Object payload is sent, whatever its name. *)
Lemma queueEventForObject_sends e obj h :
  queueEventForObject e (objectPayload obj) h
  = send (eventsChan e) {| EventObject := obj |} h.
Proof.
  unfold queueEventForObject.
  destruct (negb (String.eqb (GetName obj) (name e))); reflexivity.
Qed.

(** C1. The Forwarder does not filter by name. After Watch on the ConfigMap
    cc-config of kube-system, the only handler on the ConfigMap informer of
    that namespace is bound to the name cc-config; an update of the ConfigMap
    other-config in the same namespace puts a change notification for
    other-config onto the event stream. *)
Theorem forwarder_emits_for_other_object :
  handlersOf (Watch Sample.healthy Sample.ccConfig Sample.fresh).2.1
    "kube-system" Sample.configMapGVK
  = [{| eventsChan := 0; name := "cc-config" |}] ∧
  stream (Watch Sample.healthy Sample.ccConfig Sample.fresh).2 = [] ∧
  stream (deliver "kube-system" Sample.configMapGVK
            (Updated (objectPayload Sample.otherConfig)
                     (objectPayload Sample.otherConfig))
            (Watch Sample.healthy Sample.ccConfig Sample.fresh).2)
  = [{| EventObject := Sample.otherConfig |}].
Proof. repeat split. Qed.

End pool.

(** * Further properties *)

(** ** The constructor *)

Section constructor.

Implicit Types (sch : Scheme) (w : World) (opts : CacheOptions) (h : heap).

(** X1. NewNamespacedCache fails in two ways only, and allocates nothing when
    it fails: without a Config it returns "Config is required"; with a
    Config but no Mapper, when the discovery mapper cannot be built, it
    returns that failure wrapped in "could not create RESTMapper from
    config: ". *)
Theorem NewNamespacedCache_failure sch w opts h (err : error) (h' : heap) :
  NewNamespacedCache sch w opts h = (Err err, h') →
  h' = h ∧
  ((Config opts = None ∧ err = errorsNew "Config is required") ∨
   (∃ cfg e0,
      Config opts = Some cfg ∧ Mapper opts = None ∧
      NewDiscoveryRESTMapper w cfg = Err e0 ∧
      err = fmtErrorf
              ("could not create RESTMapper from config: " +:+ Error e0))).
Proof.
  unfold NewNamespacedCache.
  destruct (Config opts) as [cfg|]; [| intros [= <- <-]; eauto].
  destruct (Mapper opts) as [m|]; simpl; [discriminate |].
  destruct (NewDiscoveryRESTMapper w cfg) as [m|e0] eqn:Hm; simpl;
    [discriminate |].
  intros [= <- <-]. split; [reflexivity |]. right. eauto 10.
Qed.

Lemma NewNamespacedCache_failure_witness :
  (NewNamespacedCache Sample.theScheme Sample.healthy
     {| Config := None; Mapper := Some Sample.theMapper;
        CScheme := None; Resync := None |} Sample.emptyHeap).2
  = Sample.emptyHeap.
Proof.
  apply (proj1 (NewNamespacedCache_failure Sample.theScheme Sample.healthy
                  {| Config := None; Mapper := Some Sample.theMapper;
                     CScheme := None; Resync := None |} Sample.emptyHeap
                  (errorsNew "Config is required") _ eq_refl)).
Defined.

Lemma consistent_new (n : namespacedCache) h :
  caches n = ∅ → watchedResources n = ∅ →
  eventChan n < length (channels h) → consistent (n, h).
Proof.
  intros Hpool Hreg Hchan.
  assert (∀ ns k, handlersOf n ns k = []) as Hnone.
  { intros ns k. unfold handlersOf. rewrite Hpool, lookup_empty. reflexivity. }
  assert (∀ ns, registered n ns = ∅) as Hempty.
  { intros ns. unfold registered. rewrite Hreg, lookup_empty. reflexivity. }
  split; simpl.
  - intros ns c. rewrite Hpool, lookup_empty. discriminate.
  - intros ns1 ns2 c1 c2. rewrite Hpool, lookup_empty. discriminate.
  - intros ns k e. rewrite Hnone. intros []%elem_of_nil.
  - intros ns k. rewrite Hnone. constructor.
  - intros ns key. rewrite Hempty. set_solver.
  - exact Hchan.
Qed.

(** X2. A cache returned by NewNamespacedCache has an empty pool, an empty
    registry and an empty event stream on a channel that did not exist
    before; no engine is built and the channels that existed are untouched.
    It keeps the given Config; it uses the given Scheme, Mapper and Resync
    when they are set, and otherwise the default scheme and ten hours. It is
    consistent with its heap. *)
Theorem NewNamespacedCache_success sch w opts h (n : namespacedCache)
    (h' : heap) :
  NewNamespacedCache sch w opts h = (Ok n, h') →
  caches n = ∅ ∧ watchedResources n = ∅ ∧ stream (n, h') = [] ∧
  EventStream n = length (channels h) ∧
  channels h' = channels h ++ [[]] ∧ built h' = built h ∧
  Config opts = Some (config n) ∧
  scheme n = default sch (CScheme opts) ∧
  (∀ m, Mapper opts = Some m → mapper n = m) ∧
  resync n = default (36000 * 1000000000)%Z (Resync opts) ∧
  consistent (n, h').
Proof.
  unfold NewNamespacedCache.
  destruct (Config opts) as [cfg|]; [| discriminate].
  assert (length (channels h) < length (channels h ++ [[]])) as Hlen
    by (rewrite length_app; simpl; lia).
  destruct (Mapper opts) as [m|] eqn:Hmapper; simpl;
    [| destruct (NewDiscoveryRESTMapper w cfg) as [m|e0]; simpl;
       [| discriminate]];
    intros [= <- <-]; unfold stream, EventStream; simpl;
    rewrite lookup_app_r, Nat.sub_diag by lia; simpl;
    (split; [reflexivity |]); (split; [reflexivity |]);
    (split; [reflexivity |]); (split; [reflexivity |]);
    (split; [reflexivity |]); (split; [reflexivity |]);
    (split; [reflexivity |]); (split; [reflexivity |]);
    (split; [congruence |]); (split; [reflexivity |]);
    (apply consistent_new; [reflexivity | reflexivity | exact Hlen]).
Qed.

Lemma NewNamespacedCache_success_witness :
  stream Sample.fresh = [] ∧ consistent Sample.fresh.
Proof.
  destruct (NewNamespacedCache_success Sample.theScheme Sample.healthy
              {| Config := Some (mkRestConfig "https://api:6443");
                 Mapper := None; CScheme := None; Resync := None |}
              Sample.emptyHeap Sample.fresh.1 Sample.fresh.2)
    as (_ & _ & Hstream & _ & _ & _ & _ & _ & _ & _ & Hcons);
    [reflexivity |].
  split; [exact Hstream | exact Hcons].
Defined.

(** X3. With a Config and a Mapper in the options, NewNamespacedCache
    succeeds whatever the cluster answers: discovery is not consulted, and
    the cache holds the given Mapper. *)
Theorem NewNamespacedCache_with_mapper sch w opts h (cfg : restConfig)
    (m : RESTMapper) :
  Config opts = Some cfg → Mapper opts = Some m →
  ∃ n, NewNamespacedCache sch w opts h = (Ok n, (make_chan h).2) ∧
       mapper n = m ∧ config n = cfg ∧
       ∀ w', NewNamespacedCache sch w' opts h = (Ok n, (make_chan h).2).
Proof.
  intros Hcfg Hm. unfold NewNamespacedCache. rewrite Hcfg, Hm. simpl.
  eexists. split; [reflexivity |]. repeat split.
Qed.

Lemma NewNamespacedCache_with_mapper_witness :
  ∃ n, NewNamespacedCache Sample.theScheme Sample.noEngine
         {| Config := Some (mkRestConfig "https://api:6443");
            Mapper := Some Sample.theMapper; CScheme := None;
            Resync := None |} Sample.emptyHeap
       = (Ok n, (make_chan Sample.emptyHeap).2) ∧
       mapper n = Sample.theMapper ∧
       config n = mkRestConfig "https://api:6443" ∧
       ∀ w', NewNamespacedCache Sample.theScheme w'
               {| Config := Some (mkRestConfig "https://api:6443");
                  Mapper := Some Sample.theMapper; CScheme := None;
                  Resync := None |} Sample.emptyHeap
             = (Ok n, (make_chan Sample.emptyHeap).2).
Proof.
  apply (NewNamespacedCache_with_mapper Sample.theScheme Sample.noEngine
           _ Sample.emptyHeap (mkRestConfig "https://api:6443")
           Sample.theMapper); reflexivity.
Defined.

End constructor.

(** ** What Watch returns and what it leaves alone *)

Section behaviour.

Implicit Types (w : World) (obj : Object) (n : namespacedCache) (h : heap).
Implicit Types (st : state) (ns key : string).

(** X4. ensureNamespace passes exactly when the scope of the kind resolves
    and the kind is cluster-scoped or the object has a namespace; a
    cluster-scoped object passes with or without a namespace, and a failure
    to resolve the scope is returned as it is. *)
Theorem ensureNamespace_spec n obj :
  (ensureNamespace n obj = None ↔
   ∃ namespaced, isNamespaced n obj = Ok namespaced ∧
                 (namespaced = false ∨ GetNamespace obj ≠ "")) ∧
  (∀ err, isNamespaced n obj = Err err → ensureNamespace n obj = Some err) ∧
  (∀ err, ensureNamespace n obj = Some err →
          isNamespaced n obj = Err err ∨
          isNamespaced n obj = Ok true ∧ GetNamespace obj = "" ∧
          err = errNamespaceRequired).
Proof.
  unfold ensureNamespace.
  destruct (isNamespaced n obj) as [[|]|e]; simpl.
  - destruct (String.eqb_spec (GetNamespace obj) "") as [Hns|Hns].
    + split; [| split; [discriminate |]].
      * split; [discriminate |]. intros (b & [= <-] & [? | ?]); congruence.
      * intros err [= <-]. right. repeat split. exact Hns.
    + split; [| split; discriminate].
      split; [eauto | reflexivity].
  - split; [| split; discriminate]. split; [eauto | reflexivity].
  - split; [| split].
    + split; [discriminate |]. intros (b & Hb & _). discriminate.
    + intros err [= <-]. reflexivity.
    + intros err [= <-]. left. reflexivity.
Qed.

Lemma ensureNamespace_spec_witness :
  ensureNamespace Sample.fresh.1 (Sample.widget)
  = Some (foreignError "no kind is registered for the type").
Proof.
  apply (proj1 (proj2 (ensureNamespace_spec Sample.fresh.1 Sample.widget))).
  reflexivity.
Defined.

(** X5. The error that Watch returns is the result of the namespace
    validation and nothing else: Watch returns an error exactly when
    ensureNamespace does, and then that error, whatever cache.New and
    GetInformer answer. *)
Theorem Watch_result w obj st :
  (Watch w obj st).1 = ensureNamespace st.1 obj.
Proof.
  unfold Watch.
  destruct (ensureNamespace st.1 obj) as [e|] eqn:Hvalid; [reflexivity |].
  destruct (ensureNamespace_watchKey _ _ Hvalid) as [key Hkey].
  assert ((watch w obj st).1 = None) as Hwatch.
  { rewrite watch_outcome, Hkey.
    destruct ((getInformer w obj st).1); reflexivity. }
  rewrite Hkey.
  destruct (watchedResources st.1 !! GetNamespace obj); [| exact Hwatch].
  case_decide; [reflexivity | exact Hwatch].
Qed.



Lemma send_length (c : nat) (ev : GenericEvent) h :
  length (channels (send c ev h)) = length (channels h) ∧
  built (send c ev h) = built h.
Proof. unfold send; simpl. rewrite length_alter. split; reflexivity. Qed.

Lemma dispatch_shape (nt : notification) h (e : eventToChannelHandler) :
  dispatch nt h e = queueEventForObject e (carried nt) h.
Proof. destruct nt; reflexivity. Qed.

Lemma deliver_frame ns (k : GroupVersionKind) (nt : notification) st :
  (deliver ns k nt st).1 = st.1 ∧
  built (deliver ns k nt st).2 = built st.2 ∧
  length (channels (deliver ns k nt st).2) = length (channels st.2).
Proof.
  unfold deliver; simpl. split; [reflexivity |].
  generalize (handlersOf st.1 ns k) as hs. generalize st.2 as h.
  intros h hs. revert h. induction hs as [|e hs IH]; intros h; simpl;
    [split; reflexivity |].
  destruct (IH (dispatch nt h e)) as [-> ->].
  rewrite dispatch_shape. unfold queueEventForObject.
  destruct (carried nt); try (split; reflexivity).
  destruct (negb _); apply and_comm, send_length.
Qed.


(** X8. A notification whose payload is nil or is not a client.Object
    changes nothing, whatever handlers are attached; for an update only the
    new object counts, the old one is not looked at. *)
Theorem deliver_drops ns (k : GroupVersionKind) (nt : notification) st :
  (∀ obj, carried nt ≠ objectPayload obj) → deliver ns k nt st = st.
Proof.
  intros Hdrop. unfold deliver. destruct st as [n h]; simpl. f_equal.
  generalize (handlersOf n ns k) as hs.
  induction hs as [|e hs IH]; simpl; [reflexivity |].
  rewrite dispatch_shape. unfold queueEventForObject.
  destruct (carried nt) as [|obj|t]; [exact IH | | exact IH].
  exfalso. exact (Hdrop obj eq_refl).
Qed.

Lemma deliver_drops_witness :
  deliver "kube-system" Sample.configMapGVK
    (Updated (objectPayload Sample.ccConfig) nilPayload)
    (Watch Sample.healthy Sample.ccConfig Sample.fresh).2
  = (Watch Sample.healthy Sample.ccConfig Sample.fresh).2.
Proof. apply deliver_drops. intros obj. discriminate. Defined.

End behaviour.

(** ** Consistency is kept *)

Section consistency.

Implicit Types (w : World) (obj : Object) (n : namespacedCache) (h : heap).
Implicit Types (st : state) (ns key : string).
Implicit Types (i : Informer) (e : eventToChannelHandler).
Implicit Types (k : GroupVersionKind).

Lemma Cache_GetInformer_Ok w (c : Cache) obj i :
  Cache_GetInformer w c obj = Ok i →
  GVKForObject obj (opt_Scheme (options c)) = Ok (inf_kind i) ∧
  inf_engine i = serial c.
Proof.
  unfold Cache_GetInformer.
  destruct (GVKForObject obj _) as [gvk|]; [| discriminate].
  destruct (GetInformer_error w _ gvk); [discriminate |].
  intros [= <-]. split; reflexivity.
Qed.

Lemma getInformer_Ok_engine w obj st i :
  (getInformer w obj st).1 = Ok i →
  ensureNamespace st.1 obj = None ∧
  ∃ c, caches (getInformer w obj st).2.1 !! GetNamespace obj = Some c ∧
       Cache_GetInformer w c obj = Ok i.
Proof.
  destruct st as [n h]. rewrite getInformer_outcome. cbn [fst].
  destruct (ensureNamespace n obj); [discriminate |].
  destruct (caches n !! GetNamespace obj) as [c|] eqn:Hpool; cbn [fst snd].
  - intros Hi. split; [reflexivity |]. exists c. split; assumption.
  - destruct (cache_New_error w _ _); [discriminate |]. cbn [fst snd].
    intros Hi. split; [reflexivity |].
    exists (pooledEngine n (GetNamespace obj) h).
    split; [apply lookup_insert_eq | exact Hi].
Qed.

(** The pool after getInformer: as before, or with one more engine under a
    namespace that had none. *)
Lemma getInformer_pool w obj st :
  (getInformer w obj st).2 = st ∨
  caches st.1 !! GetNamespace obj = None ∧
  (getInformer w obj st).2
  = (set_caches
       (<[GetNamespace obj := pooledEngine st.1 (GetNamespace obj) st.2]>)
       st.1,
     {| built := S (built st.2); channels := channels st.2 |}).
Proof.
  destruct st as [n h]. rewrite getInformer_outcome. cbn [fst snd].
  destruct (ensureNamespace n obj); [left; reflexivity |].
  destruct (caches n !! GetNamespace obj); [left; reflexivity |].
  destruct (cache_New_error w _ _); [left; reflexivity |].
  right. split; reflexivity.
Qed.

Lemma handlersOf_extend n h ns ns' k :
  caches n !! ns = None →
  handlersOf (set_caches (<[ns := pooledEngine n ns h]>) n) ns' k
  = handlersOf n ns' k.
Proof.
  intros Hnone. unfold handlersOf; simpl.
  destruct (decide (ns' = ns)) as [->|Hne].
  - rewrite lookup_insert_eq, Hnone. reflexivity.
  - rewrite lookup_insert_ne by congruence. reflexivity.
Qed.

Lemma consistent_getInformer w obj st :
  consistent st → consistent (getInformer w obj st).2.
Proof.
  intros Hc. destruct (getInformer_pool w obj st) as [-> | [Hnone ->]];
    [exact Hc |].
  destruct Hc as [Hbound Hdistinct Hwired Hnodup Hkeys Hchan].
  destruct st as [n h]; cbn [fst snd] in *.
  split; cbn [fst snd].
  - intros ns c. simpl. intros [[<- <-] | [Hne Hc]]%lookup_insert_Some.
    + repeat split. simpl. lia.
    + destruct (Hbound ns c Hc) as (Hopt & Hstart & Hlt).
      repeat split; [exact Hopt | exact Hstart | simpl; lia].
  - intros ns1 ns2 c1 c2. simpl.
    intros [[<- <-] | [Hne1 Hc1]]%lookup_insert_Some
           [[<- <-] | [Hne2 Hc2]]%lookup_insert_Some; simpl.
    + reflexivity.
    + intros Heq. destruct (Hbound ns2 c2 Hc2) as (_ & _ & Hlt). lia.
    + intros Heq. destruct (Hbound ns1 c1 Hc1) as (_ & _ & Hlt). lia.
    + apply Hdistinct; assumption.
  - intros ns k e. rewrite handlersOf_extend by exact Hnone. apply Hwired.
  - intros ns k. rewrite handlersOf_extend by exact Hnone. apply Hnodup.
  - intros ns key Hin. destruct (Hkeys ns key Hin) as (k & e & He & Hk).
    exists k, e. rewrite handlersOf_extend by exact Hnone. split; assumption.
  - exact Hchan.
Qed.

(** The handlers after AddEventHandler, when no other namespace shares the
    engine: one more on the informer of that kind in that namespace. *)
Lemma handlersOf_AddEventHandler n ns (c : Cache) i e ns' k :
  caches n !! ns = Some c → serial c = inf_engine i →
  (∀ ns2 c2, caches n !! ns2 = Some c2 → serial c2 = serial c → ns2 = ns) →
  handlersOf (Informer_AddEventHandler i e n) ns' k
  = if decide (ns' = ns ∧ k = inf_kind i)
    then handlersOf n ns' k ++ [e] else handlersOf n ns' k.
Proof.
  intros Hc Hserial Honly. unfold handlersOf, Informer_AddEventHandler; simpl.
  rewrite lookup_fmap.
  destruct (caches n !! ns') as [c'|] eqn:Hc'; simpl.
  - destruct (decide (serial c' = inf_engine i)) as [Heq|Hne].
    + assert (ns' = ns) as -> by (apply (Honly _ c'); congruence).
      assert (c' = c) as -> by congruence.
      unfold add_handler; simpl.
      destruct (decide (k = inf_kind i)) as [->|Hk].
      * rewrite lookup_insert_eq, decide_True by (split; reflexivity).
        reflexivity.
      * rewrite lookup_insert_ne by congruence.
        rewrite decide_False by (intros [_ ?]; contradiction). reflexivity.
    + rewrite decide_False; [reflexivity |].
      intros [-> _]. apply Hne. congruence.
  - rewrite decide_False; [reflexivity |]. intros [-> _]. congruence.
Qed.

Lemma getInformer_handlers w obj st ns k :
  handlersOf (getInformer w obj st).2.1 ns k = handlersOf st.1 ns k.
Proof.
  destruct (getInformer_pool w obj st) as [-> | [Hnone ->]]; [reflexivity |].
  apply handlersOf_extend, Hnone.
Qed.

(** Watch leaves the state alone, or runs [watch] on an object that passed
    validation and whose key is not registered. *)
Lemma Watch_cases w obj st :
  (Watch w obj st).2 = st ∨
  Watch w obj st = watch w obj st ∧
  ensureNamespace st.1 obj = None ∧
  ∀ key, watchKey st.1 obj = Ok key →
         key ∉ registered st.1 (GetNamespace obj).
Proof.
  unfold Watch, registered.
  destruct (ensureNamespace st.1 obj); [left; reflexivity |].
  destruct (watchedResources st.1 !! GetNamespace obj) as [m|]; simpl.
  - destruct (watchKey st.1 obj) as [key|]; [| left; reflexivity].
    case_decide; [left; reflexivity |].
    right. repeat split. intros key' [= <-]. assumption.
  - right. repeat split. intros key _. set_solver.
Qed.

(** What [watch] does once the informer is acquired, on a consistent
    state. *)
Lemma watch_effect w obj st i :
  consistent st → (getInformer w obj st).1 = Ok i →
  let ns := GetNamespace obj in
  let e := {| eventsChan := eventChan st.1; name := GetName obj |} in
  let key := keyOf (inf_kind i) (GetName obj) in
  watchKey st.1 obj = Ok key ∧
  (watch w obj st).1 = None ∧
  (∀ ns' k, handlersOf (watch w obj st).2.1 ns' k
            = if decide (ns' = ns ∧ k = inf_kind i)
              then handlersOf st.1 ns' k ++ [e] else handlersOf st.1 ns' k) ∧
  (∀ ns', registered (watch w obj st).2.1 ns'
          = if decide (ns' = ns) then {[key]} ∪ registered st.1 ns'
            else registered st.1 ns') ∧
  (∀ ns' c', caches (watch w obj st).2.1 !! ns' = Some c' →
     ∃ c1, caches (getInformer w obj st).2.1 !! ns' = Some c1 ∧
           options c' = options c1 ∧ started c' = started c1 ∧
           serial c' = serial c1) ∧
  (watch w obj st).2.2 = (getInformer w obj st).2.2.
Proof.
  intros Hcons Hi ns e key.
  pose proof (consistent_getInformer w obj st Hcons) as Hcons1.
  destruct (getInformer_frame w obj st) as (Hreg & Hsch & _ & _ & _).
  destruct (getInformer_Ok_engine w obj st i Hi) as (_ & c & Hc & Hget).
  destruct (Cache_GetInformer_Ok w c obj i Hget) as [Hgvk Hserial].
  destruct (engines_bound _ Hcons1 _ _ Hc) as (Hopt & _ & _).
  assert (watchKey st.1 obj = Ok key) as Hkey.
  { unfold watchKey. rewrite <- Hsch. rewrite Hopt in Hgvk. simpl in Hgvk.
    rewrite Hgvk. reflexivity. }
  split; [exact Hkey |].
  rewrite watch_outcome, Hi, Hkey. cbn [fst snd].
  split; [reflexivity |]. split; [| split; [| split; [| reflexivity]]].
  - intros ns' k.
    change (handlersOf (set_watchedResources ?f ?n) ns' k)
      with (handlersOf n ns' k).
    rewrite (handlersOf_AddEventHandler _ ns c) by
      (try assumption; try congruence;
       intros ns2 c2 Hc2 Heq; apply (engines_distinct _ Hcons1 ns2 ns c2 c);
       assumption).
    rewrite getInformer_handlers. reflexivity.
  - intros ns'. unfold registered at 1; simpl. rewrite Hreg.
    destruct (decide (ns' = ns)) as [->|Hne].
    + subst ns. rewrite lookup_insert_eq. reflexivity.
    + subst ns. rewrite lookup_insert_ne by congruence. reflexivity.
  - intros ns' c'. simpl. rewrite lookup_fmap.
    destruct (caches (getInformer w obj st).2.1 !! ns') as [c1|];
      [| discriminate].
    simpl. intros [= <-]. exists c1. split; [reflexivity |].
    case_decide; repeat split.
Qed.

Lemma consistent_Watch w obj st :
  consistent st → consistent (Watch w obj st).2.
Proof.
  intros Hcons.
  destruct (Watch_cases w obj st) as [-> | (HW & Hvalid & Hfresh)];
    [exact Hcons |].
  pose proof (consistent_getInformer w obj st Hcons) as Hcons1.
  rewrite HW. destruct ((getInformer w obj st).1) as [i|err] eqn:Hi.
  2:{ rewrite watch_outcome, Hi. exact Hcons1. }
  destruct (watch_effect w obj st i Hcons Hi)
    as (Hkey & _ & Hhandlers & Hregistered & Hengines & Hheap).
  specialize (Hfresh _ Hkey).
  destruct (Watch_frame w obj st) as (_ & _ & Hchan & Hchs).
  rewrite HW in Hchan, Hchs.
  assert (∀ ns', registered st.1 ns' ⊆ registered (watch w obj st).2.1 ns')
    as Hmono.
  { intros ns'. rewrite Hregistered. case_decide; set_solver. }
  assert (∀ n1 n2 ns', scheme n1 = scheme n2 → mapper n1 = mapper n2 →
                       resync n1 = resync n2 →
                       engineOptions n1 ns' = engineOptions n2 ns') as Hopts.
  { intros n1 n2 ns' H1 H2 H3. unfold engineOptions. congruence. }
  destruct Hcons as [Hbound Hdistinct Hwired Hnodup Hkeys Halloc].
  split.
  - intros ns' c' Hc'. destruct (Hengines ns' c' Hc') as (c1 & Hc1 & -> & -> & ->).
    rewrite Hheap. destruct (engines_bound _ Hcons1 ns' c1 Hc1) as (Ho & Hs & Hl).
    repeat split; [| exact Hs | exact Hl].
    rewrite Ho. revert Hi Hkey. rewrite watch_outcome.
    intros -> ->. reflexivity.
  - intros ns1 ns2 c1 c2 H1 H2.
    destruct (Hengines ns1 c1 H1) as (d1 & Hd1 & _ & _ & ->).
    destruct (Hengines ns2 c2 H2) as (d2 & Hd2 & _ & _ & ->).
    apply (engines_distinct _ Hcons1 ns1 ns2 d1 d2); assumption.
  - intros ns' k e'. rewrite Hhandlers, Hchan.
    destruct (decide (ns' = GetNamespace obj ∧ k = inf_kind i)) as [[-> ->]|Hne].
    + intros [Hold | ->%list_elem_of_singleton]%elem_of_app.
      * destruct (Hwired _ _ _ Hold) as [Hch Hk]. split; [exact Hch |].
        apply Hmono, Hk.
      * split; [reflexivity |]. rewrite Hregistered.
        rewrite decide_True by reflexivity. set_solver.
    + intros Hold. destruct (Hwired _ _ _ Hold) as [Hch Hk].
      split; [exact Hch | apply Hmono, Hk].
  - intros ns' k. rewrite Hhandlers.
    destruct (decide (ns' = GetNamespace obj ∧ k = inf_kind i)) as [[-> ->]|Hne];
      [| apply Hnodup].
    rewrite fmap_app. apply NoDup_app. split; [apply Hnodup |].
    split; [| apply NoDup_singleton].
    intros nm Hnm ->%list_elem_of_singleton.
    apply list_elem_of_fmap in Hnm as (e0 & Hname & He0). simpl in Hname.
    destruct (Hwired _ _ _ He0) as [_ Hk]. rewrite <- Hname in Hk.
    exact (Hfresh Hk).
  - intros ns' key'. rewrite Hregistered.
    assert (∀ k e0, e0 ∈ handlersOf st.1 ns' k →
                    e0 ∈ handlersOf (watch w obj st).2.1 ns' k) as Hkeep.
    { intros k e0 He0. rewrite Hhandlers. case_decide; [| exact He0].
      apply elem_of_app. left. exact He0. }
    destruct (decide (ns' = GetNamespace obj)) as [->|Hne].
    + intros [->%elem_of_singleton | Hold]%elem_of_union.
      * exists (inf_kind i), {| eventsChan := eventChan st.1;
                               name := GetName obj |}.
        split; [| reflexivity]. rewrite Hhandlers.
        rewrite decide_True by (split; reflexivity).
        apply elem_of_app. right. apply list_elem_of_singleton. reflexivity.
      * destruct (Hkeys _ _ Hold) as (k & e0 & He0 & ->).
        exists k, e0. split; [apply Hkeep, He0 | reflexivity].
    + intros Hold. destruct (Hkeys _ _ Hold) as (k & e0 & He0 & ->).
      exists k, e0. split; [apply Hkeep, He0 | reflexivity].
  - rewrite Hchan, Hchs. exact Halloc.
Qed.

Lemma consistent_deliver ns k (nt : notification) st :
  consistent st → consistent (deliver ns k nt st).
Proof.
  intros [Hbound Hdistinct Hwired Hnodup Hkeys Halloc].
  destruct (deliver_frame ns k nt st) as (Hn & Hbuilt & Hlen).
  split; rewrite ?Hn, ?Hbuilt, ?Hlen; assumption.
Qed.

Lemma consistent_run (cs : list call) st :
  consistent st → consistent (run cs st).
Proof.
  unfold run. revert st. induction cs as [|c cs IH]; intros st Hcons;
    [exact Hcons |].
  cbn [foldl]. apply IH. destruct c as [w obj | | ns k nt]; simpl.
  - apply consistent_Watch, Hcons.
  - exact Hcons.
  - apply consistent_deliver, Hcons.
Qed.

Lemma consistent_fresh : consistent Sample.fresh.
Proof. apply consistent_new; [reflexivity | reflexivity | simpl; lia]. Qed.

(** X9. In a cache that starts consistent (as a new cache is), after any
    sequence of Watch calls, EventStream calls and notifications, every
    engine of the pool carries the options of the cache with the namespace
    it is stored under, has been started, and is stored under that one
    namespace only. *)
Theorem pool_engines_bound (cs : list call) st ns (c : Cache) :
  consistent st →
  caches (run cs st).1 !! ns = Some c →
  options c = engineOptions (run cs st).1 ns ∧
  opt_Namespace (options c) = ns ∧
  started c = true ∧
  ∀ ns2 c2, caches (run cs st).1 !! ns2 = Some c2 →
            serial c2 = serial c → ns2 = ns.
Proof.
  intros Hcons%(consistent_run cs) Hc.
  destruct (engines_bound _ Hcons ns c Hc) as (Hopt & Hstart & _).
  split; [exact Hopt |]. split; [rewrite Hopt; reflexivity |].
  split; [exact Hstart |].
  intros ns2 c2 Hc2 Heq.
  apply (engines_distinct _ Hcons ns2 ns c2 c); assumption.
Qed.

Lemma pool_engines_bound_witness :
  opt_Namespace
    (options (pooledEngine Sample.fresh.1 "kube-system" Sample.fresh.2))
  = "kube-system".
Proof.
  apply (pool_engines_bound
           [CallWatch Sample.noInformer Sample.ccConfig] Sample.fresh
           "kube-system"
           (pooledEngine Sample.fresh.1 "kube-system" Sample.fresh.2)
           consistent_fresh).
  vm_compute. reflexivity.
Defined.

(** X10. In a cache that starts consistent, after any sequence of calls no
    informer carries two Forwarders bound to the same name, and every
    Forwarder sends to the cache's own event stream. *)
Theorem no_duplicate_forwarders (cs : list call) st ns k :
  consistent st →
  NoDup (name <$> handlersOf (run cs st).1 ns k) ∧
  ∀ e, e ∈ handlersOf (run cs st).1 ns k →
       eventsChan e = EventStream (run cs st).1.
Proof.
  intros Hcons%(consistent_run cs).
  split; [apply (handlers_distinct _ Hcons) |].
  intros e He. apply (handlers_wired _ Hcons ns k e He).
Qed.

Lemma no_duplicate_forwarders_witness :
  NoDup (name <$> handlersOf
           (run [CallWatch Sample.healthy Sample.ccConfig;
                 CallWatch Sample.healthy Sample.ccConfig;
                 CallWatch Sample.healthy Sample.otherConfig]
              Sample.fresh).1 "kube-system" Sample.configMapGVK).
Proof.
  apply (no_duplicate_forwarders
           [CallWatch Sample.healthy Sample.ccConfig;
            CallWatch Sample.healthy Sample.ccConfig;
            CallWatch Sample.healthy Sample.otherConfig]
           Sample.fresh "kube-system" Sample.configMapGVK consistent_fresh).
Defined.

(** X11. In a cache that starts consistent, after any sequence of calls the
    registry and the Forwarders agree: a key is registered for a namespace
    exactly when an informer of that namespace's engine carries a Forwarder
    whose kind and name make up that key. *)
Theorem registry_matches_forwarders (cs : list call) st ns key :
  consistent st →
  key ∈ registered (run cs st).1 ns ↔
  ∃ k e, e ∈ handlersOf (run cs st).1 ns k ∧ key = keyOf k (name e).
Proof.
  intros Hcons%(consistent_run cs). split.
  - apply (keys_handled _ Hcons).
  - intros (k & e & He & ->). apply (handlers_wired _ Hcons ns k e He).
Qed.

Lemma registry_matches_forwarders_witness :
  "ConfigMap/cc-config"
    ∈ registered (run [CallWatch Sample.healthy Sample.ccConfig]
                    Sample.fresh).1 "kube-system".
Proof.
  apply (registry_matches_forwarders
           [CallWatch Sample.healthy Sample.ccConfig] Sample.fresh
           "kube-system" "ConfigMap/cc-config" consistent_fresh).
  exists Sample.configMapGVK, {| eventsChan := 0; name := "cc-config" |}.
  split; [| reflexivity].
  apply list_elem_of_singleton. reflexivity.
Defined.

Lemma foldl_dispatch_channel (nt : notification) obj
    (hs : list eventToChannelHandler) h (ch : nat) :
  carried nt = objectPayload obj →
  (∀ e, e ∈ hs → eventsChan e = ch) →
  channels (foldl (dispatch nt) h hs) !! ch
  = (λ q, q ++ replicate (length hs) {| EventObject := obj |})
      <$> channels h !! ch.
Proof.
  intros Hobj. revert h. induction hs as [|e hs IH]; intros h Hch; simpl.
  - destruct (channels h !! ch); simpl; [rewrite app_nil_r |]; reflexivity.
  - rewrite IH by (intros e' He'; apply Hch; right; exact He').
    rewrite dispatch_shape, Hobj, queueEventForObject_sends.
    rewrite (Hch e) by left. unfold send; simpl.
    rewrite list_lookup_alter_eq.
    destruct (channels h !! ch); simpl; [| reflexivity].
    rewrite <- app_assoc. reflexivity.
Qed.

(** X12. On a consistent cache, a notification that carries a client.Object
    puts one change notification for that object on the event stream for
    every Forwarder attached to the informer that delivers it, whatever the
    names the Forwarders are bound to. *)
Theorem deliver_one_event_per_forwarder ns k (nt : notification) obj st :
  consistent st →
  carried nt = objectPayload obj →
  stream (deliver ns k nt st)
  = stream st
    ++ replicate (length (handlersOf st.1 ns k)) {| EventObject := obj |}.
Proof.
  intros Hcons Hobj. unfold stream, deliver, EventStream; simpl.
  rewrite (foldl_dispatch_channel nt obj) by
    (try exact Hobj; intros e He; apply (handlers_wired _ Hcons ns k e He)).
  destruct (lookup_lt_is_Some_2 _ _ (stream_allocated _ Hcons)) as [q ->].
  reflexivity.
Qed.

Lemma deliver_one_event_per_forwarder_witness :
  stream (deliver "kube-system" Sample.configMapGVK
            (Deleted (objectPayload Sample.ccConfig))
            (run [CallWatch Sample.healthy Sample.ccConfig;
                  CallWatch Sample.healthy Sample.otherConfig]
               Sample.fresh))
  = [{| EventObject := Sample.ccConfig |}; {| EventObject := Sample.ccConfig |}].
Proof.
  apply (deliver_one_event_per_forwarder "kube-system" Sample.configMapGVK
           (Deleted (objectPayload Sample.ccConfig)) Sample.ccConfig
           (run [CallWatch Sample.healthy Sample.ccConfig;
                 CallWatch Sample.healthy Sample.otherConfig] Sample.fresh)
           (consistent_run _ _ consistent_fresh) eq_refl).
Defined.

(** X13. On a consistent cache, an informer that getInformer returns for a
    namespace-scoped object is never an informer of the cluster-wide engine,
    the one stored under the empty namespace. *)
Theorem cluster_engine_not_for_namespaced w obj st i (c : Cache) :
  consistent st →
  isNamespaced st.1 obj = Ok true →
  (getInformer w obj st).1 = Ok i →
  caches (getInformer w obj st).2.1 !! "" = Some c →
  inf_engine i ≠ serial c.
Proof.
  intros Hcons%(consistent_getInformer w obj) Hns Hi Hc Heq.
  destruct (getInformer_Ok_engine w obj st i Hi) as (Hvalid & c0 & Hc0 & Hget).
  destruct (Cache_GetInformer_Ok w c0 obj i Hget) as [_ Hserial].
  assert ("" = GetNamespace obj) as Hempty.
  { apply (engines_distinct _ Hcons _ _ c c0); [assumption .. | congruence]. }
  revert Hvalid. unfold ensureNamespace. rewrite Hns, <- Hempty. discriminate.
Qed.

Lemma cluster_engine_not_for_namespaced_witness :
  inf_engine {| inf_engine := 1; inf_kind := Sample.configMapGVK |}
  ≠ serial (add_handler Sample.infrastructureGVK
              {| eventsChan := 0; name := "cluster" |}
              (pooledEngine Sample.fresh.1 "" Sample.fresh.2)).
Proof.
  apply (cluster_engine_not_for_namespaced Sample.healthy Sample.ccConfig
           (Watch Sample.healthy (Sample.infrastructure "cluster")
              Sample.fresh).2
           {| inf_engine := 1; inf_kind := Sample.configMapGVK |}
           (add_handler Sample.infrastructureGVK
              {| eventsChan := 0; name := "cluster" |}
              (pooledEngine Sample.fresh.1 "" Sample.fresh.2))
           (consistent_Watch _ _ _ consistent_fresh)).
  - reflexivity.
  - reflexivity.
  - vm_compute. reflexivity.
Defined.

Lemma Watch_unregistered w obj st :
  ensureNamespace st.1 obj = None →
  (∀ key, watchKey st.1 obj = Ok key →
          key ∉ registered st.1 (GetNamespace obj)) →
  Watch w obj st = watch w obj st.
Proof.
  intros Hvalid Hfresh. unfold Watch. rewrite Hvalid.
  destruct (ensureNamespace_watchKey _ _ Hvalid) as [key Hkey].
  specialize (Hfresh key Hkey). unfold registered in Hfresh. rewrite Hkey.
  destruct (watchedResources st.1 !! GetNamespace obj); simpl in Hfresh;
    [| reflexivity].
  rewrite decide_False by assumption. reflexivity.
Qed.

(** X14. On a consistent cache, a Watch call on an object that is not yet
    registered and for which the informer is acquired returns nil, registers
    exactly the object's key under the object's namespace, and attaches
    exactly one Forwarder, bound to the object's name and to the cache's
    event stream, at the end of the handlers of the informer of the object's
    kind in that namespace; the registry of every other namespace and the
    handlers of every other informer are as before. *)
Theorem Watch_registration w obj st i :
  consistent st →
  (∀ key, watchKey st.1 obj = Ok key →
          key ∉ registered st.1 (GetNamespace obj)) →
  (getInformer w obj st).1 = Ok i →
  let ns := GetNamespace obj in
  let e := {| eventsChan := EventStream st.1; name := GetName obj |} in
  (Watch w obj st).1 = None ∧
  watchKey st.1 obj = Ok (keyOf (inf_kind i) (GetName obj)) ∧
  (∀ ns', registered (Watch w obj st).2.1 ns'
          = if decide (ns' = ns)
            then {[keyOf (inf_kind i) (GetName obj)]} ∪ registered st.1 ns'
            else registered st.1 ns') ∧
  (∀ ns' k, handlersOf (Watch w obj st).2.1 ns' k
            = if decide (ns' = ns ∧ k = inf_kind i)
              then handlersOf st.1 ns' k ++ [e] else handlersOf st.1 ns' k).
Proof.
  intros Hcons Hfresh Hi ns e.
  destruct (getInformer_Ok_engine w obj st i Hi) as (Hvalid & _).
  rewrite (Watch_unregistered w obj st Hvalid Hfresh).
  destruct (watch_effect w obj st i Hcons Hi)
    as (Hkey & Hnil & Hhandlers & Hregistered & _).
  repeat split; assumption.
Qed.

Lemma Watch_registration_witness :
  handlersOf (Watch Sample.healthy Sample.otherConfig
                (Watch Sample.healthy Sample.ccConfig Sample.fresh).2).2.1
    "kube-system" Sample.configMapGVK
  = [{| eventsChan := 0; name := "cc-config" |};
     {| eventsChan := 0; name := "other-config" |}].
Proof.
  destruct (Watch_registration Sample.healthy Sample.otherConfig
              (Watch Sample.healthy Sample.ccConfig Sample.fresh).2
              {| inf_engine := 0; inf_kind := Sample.configMapGVK |})
    as (_ & _ & _ & Hhandlers).
  - apply consistent_Watch, consistent_fresh.
  - intros key [= <-]. vm_compute. discriminate.
  - reflexivity.
  - rewrite Hhandlers. reflexivity.
Defined.

End consistency.

(** ** Nothing is taken away *)

Section growth.

Implicit Types (w : World) (obj : Object) (n : namespacedCache) (h : heap).
Implicit Types (st : state) (ns : string) (k : GroupVersionKind).

Lemma grown_attach (c : Cache) (i : Informer) (e : eventToChannelHandler) :
  grown c (if decide (serial c = inf_engine i)
           then add_handler (inf_kind i) e c else c).
Proof.
  case_decide; [| repeat split; reflexivity].
  repeat split. intros k. unfold add_handler; simpl.
  destruct (decide (k = inf_kind i)) as [->|Hne].
  - rewrite lookup_insert_eq. simpl. apply prefix_app_r. reflexivity.
  - rewrite lookup_insert_ne by congruence. reflexivity.
Qed.

Lemma watch_grows_from w obj st ns (c : Cache) :
  caches (getInformer w obj st).2.1 !! ns = Some c →
  ∃ c', caches (watch w obj st).2.1 !! ns = Some c' ∧ grown c c'.
Proof.
  intros Hc. rewrite watch_outcome.
  destruct ((getInformer w obj st).1) as [i|];
    [| exists c; split; [exact Hc | repeat split; reflexivity]].
  destruct (watchKey st.1 obj) as [key|]; cbn [fst snd];
    [| exists c; split; [exact Hc | repeat split; reflexivity]].
  eexists. split; [| apply grown_attach].
  simpl. rewrite lookup_fmap, Hc. reflexivity.
Qed.

Lemma watch_grows w obj st ns (c : Cache) :
  caches st.1 !! ns = Some c →
  ∃ c', caches (watch w obj st).2.1 !! ns = Some c' ∧ grown c c'.
Proof. intros Hc. apply watch_grows_from, getInformer_keeps, Hc. Qed.

Lemma Watch_grows w obj st ns (c : Cache) :
  caches st.1 !! ns = Some c →
  ∃ c', caches (Watch w obj st).2.1 !! ns = Some c' ∧ grown c c'.
Proof.
  intros Hc. destruct (Watch_outcome w obj st) as [-> | [-> _]].
  - apply watch_grows, Hc.
  - exists c. split; [exact Hc | repeat split; reflexivity].
Qed.

Lemma run_grows (cs : list call) st ns (c : Cache) :
  caches st.1 !! ns = Some c →
  ∃ c', caches (run cs st).1 !! ns = Some c' ∧ grown c c'.
Proof.
  unfold run. revert st c. induction cs as [|a cs IH]; intros st c Hc.
  - exists c. split; [exact Hc | repeat split; reflexivity].
  - cbn [foldl].
    assert (∃ c1, caches (step st a).1 !! ns = Some c1 ∧ grown c c1)
      as (c1 & Hc1 & H1 & H2 & H3 & H4).
    { destruct a as [w obj | | ns' k nt]; simpl;
        [apply Watch_grows, Hc | |];
        (exists c; split; [exact Hc | repeat split; reflexivity]). }
    destruct (IH _ _ Hc1) as (c' & Hc' & G1 & G2 & G3 & G4).
    exists c'. split; [exact Hc' |].
    repeat split; [congruence .. |].
    intros k. etransitivity; [apply H4 | apply G4].
Qed.

(** X15. An engine of the pool is never replaced or removed: over any
    sequence of Watch calls, EventStream calls and notifications, from any
    state, a namespace that has an engine keeps an engine with the same
    identity, the same options and the same started flag. *)
Theorem pool_engines_stay (cs : list call) st ns (c : Cache) :
  caches st.1 !! ns = Some c →
  ∃ c', caches (run cs st).1 !! ns = Some c' ∧
        serial c' = serial c ∧ options c' = options c ∧
        started c' = started c.
Proof.
  intros Hc. destruct (run_grows cs st ns c Hc) as (c' & Hc' & H1 & H2 & H3 & _).
  exists c'. repeat split; assumption.
Qed.

Lemma pool_engines_stay_witness :
  ∃ c', caches (run [CallWatch Sample.healthy Sample.otherConfig;
                     CallWatch Sample.noEngine (Sample.infrastructure "x")]
                  (Watch Sample.healthy Sample.ccConfig Sample.fresh).2).1
          !! "kube-system" = Some c' ∧
        serial c' = 0 ∧
        options c' = engineOptions Sample.fresh.1 "kube-system" ∧
        started c' = true.
Proof.
  apply (pool_engines_stay
           [CallWatch Sample.healthy Sample.otherConfig;
            CallWatch Sample.noEngine (Sample.infrastructure "x")]
           (Watch Sample.healthy Sample.ccConfig Sample.fresh).2
           "kube-system"
           (add_handler Sample.configMapGVK
              {| eventsChan := 0; name := "cc-config" |}
              (pooledEngine Sample.fresh.1 "kube-system" Sample.fresh.2))).
  vm_compute. reflexivity.
Defined.

(** X16. A Forwarder is never detached: over any sequence of calls, from any
    state, the handlers of every informer are kept in their order, with new
    ones added only at the end. *)
Theorem forwarders_stay (cs : list call) st ns k :
  handlersOf st.1 ns k `prefix_of` handlersOf (run cs st).1 ns k.
Proof.
  unfold handlersOf at 1.
  destruct (caches st.1 !! ns) as [c|] eqn:Hc; [| apply prefix_nil].
  destruct (run_grows cs st ns c Hc) as (c' & Hc' & _ & _ & _ & Hk).
  unfold handlersOf. rewrite Hc'. apply Hk.
Qed.

Lemma watch_heap w obj st :
  (watch w obj st).2.2 = (getInformer w obj st).2.2.
Proof.
  rewrite watch_outcome. destruct ((getInformer w obj st).1); [| reflexivity].
  destruct (watchKey st.1 obj); reflexivity.
Qed.

(** X17. A Watch call builds at most one engine, and only for a namespace
    that had none; after a call that built one, the namespace has an
    engine. *)
Theorem Watch_builds_at_most_one w obj st :
  built (Watch w obj st).2.2 = built st.2 ∨
  built (Watch w obj st).2.2 = S (built st.2) ∧
  caches st.1 !! GetNamespace obj = None ∧
  is_Some (caches (Watch w obj st).2.1 !! GetNamespace obj).
Proof.
  destruct (Watch_outcome w obj st) as [HW | [-> _]]; [| left; reflexivity].
  rewrite HW, watch_heap.
  destruct (getInformer_pool w obj st) as [-> | [Hnone Hst1]];
    [left; reflexivity |].
  right. split; [rewrite Hst1; reflexivity |]. split; [exact Hnone |].
  assert (caches (getInformer w obj st).2.1 !! GetNamespace obj
          = Some (pooledEngine st.1 (GetNamespace obj) st.2)) as Hc
    by (rewrite Hst1; apply lookup_insert_eq).
  destruct (watch_grows_from w obj st _ _ Hc) as (c' & Hc' & _).
  rewrite Hc'. eauto.
Qed.

(** X18 is the lemma Watch_idempotent_once_registered above; here it is
    run on the sample cluster. *)
Lemma Watch_idempotent_once_registered_witness :
  run [CallWatch Sample.noEngine Sample.ccConfig;
       CallWatch Sample.noInformer Sample.ccConfig;
       CallWatch Sample.healthy Sample.ccConfig]
    (Watch Sample.healthy Sample.ccConfig Sample.fresh).2
  = (Watch Sample.healthy Sample.ccConfig Sample.fresh).2.
Proof.
  apply (proj2 (Watch_idempotent_once_registered
                  Sample.healthy Sample.ccConfig Sample.fresh
                  {| inf_engine := 0; inf_kind := Sample.configMapGVK |}
                  [Sample.noEngine; Sample.noInformer; Sample.healthy]
                  eq_refl eq_refl)).
Defined.

End growth.

(** ** More on the grouping of owned resources *)

Section owned.

Abbreviation kind := GetObjectKind_GroupVersionKind.

Lemma firstOccurrences_fixed (u : list Object) :
  NoDup (kind <$> u) → firstOccurrences u = u.
Proof.
  induction u as [|x p IH] using rev_ind; [reflexivity |].
  rewrite fmap_app, firstOccurrences_snoc. simpl.
  intros (Hp & Hx & _)%NoDup_app. rewrite (IH Hp).
  rewrite decide_False; [reflexivity |].
  intros Hin. apply (Hx _ Hin). left.
Qed.

Lemma OwnedResourcesGroup_value (aws : OwnedResources) :
  OwnedResourcesGroup aws = Some (firstOccurrences (range aws)).
Proof.
  unfold OwnedResourcesGroup. rewrite distinctOver_spec. simpl.
  rewrite app_nil_r. reflexivity.
Qed.

(** X19. Grouping is idempotent: OwnedResourcesGroup applied to its own
    result returns that result. *)
Theorem OwnedResourcesGroup_idempotent (aws : OwnedResources) :
  OwnedResourcesGroup (OwnedResourcesGroup aws) = OwnedResourcesGroup aws.
Proof.
  rewrite !OwnedResourcesGroup_value. simpl.
  rewrite (firstOccurrences_fixed (firstOccurrences (range aws)));
    [reflexivity | apply firstOccurrences_NoDup].
Qed.

(** X20. OwnedResourcesGroup never returns the nil slice (for a nil or empty
    list of AWS resources it returns an empty, non-nil slice), never returns
    more resources than it is given, and returns the AWS resources as they
    are when no two of them share a GroupVersionKind. *)
Theorem OwnedResourcesGroup_edges (aws : OwnedResources) :
  OwnedResourcesGroup aws ≠ None ∧
  (range aws = [] → OwnedResourcesGroup aws = Some []) ∧
  (length (range (OwnedResourcesGroup aws)) ≤ length (range aws))%nat ∧
  (NoDup (kind <$> range aws) →
   OwnedResourcesGroup aws = Some (range aws)).
Proof.
  rewrite OwnedResourcesGroup_value. split; [discriminate |].
  split; [intros ->; reflexivity |].
  split; [apply sublist_length, firstOccurrences_sublist |].
  intros Hnodup. rewrite firstOccurrences_fixed by exact Hnodup. reflexivity.
Qed.

Lemma OwnedResourcesGroup_edges_witness :
  OwnedResourcesGroup (Some [Sample.ccConfig; Sample.infrastructure "cluster"])
  = Some [Sample.ccConfig; Sample.infrastructure "cluster"].
Proof.
  apply (proj2 (proj2 (proj2
           (OwnedResourcesGroup_edges
              (Some [Sample.ccConfig; Sample.infrastructure "cluster"]))))).
  apply (bool_decide_unpack _). vm_compute. reflexivity.
Defined.

End owned.

(** ** More on the platform owner *)

Section owner.

Implicit Types (aws : OwnedResources) (c : Client) (key : ObjectKey).

(** X21. GetOwner fails exactly when the client's Get fails, with that
    error, and then returns neither the object nor resources; when Get
    succeeds it returns the fetched object and the resources of the platform
    named in its status, which are the AWS resources or nil. *)
Theorem GetOwner_outcome aws c key :
  (∀ err, (GetOwner aws c key).2 = Some err ↔ c key = Err err) ∧
  (∀ err, c key = Err err → GetOwner aws c key = (None, None, Some err)) ∧
  (∀ infra, c key = Ok infra →
     (GetOwner aws c key).1.1 = Some infra ∧
     (GetOwner aws c key).2 = None ∧
     ((GetOwner aws c key).1.2 = aws ∧ Status_Platform infra = AWSPlatformType
      ∨ (GetOwner aws c key).1.2 = None ∧
        Status_Platform infra ≠ AWSPlatformType)).
Proof.
  unfold GetOwner. destruct (c key) as [infra|e]; simpl.
  - split; [intros err; split; discriminate |]. split; [discriminate |].
    intros ? [= <-]. repeat split. unfold getResources.
    destruct (String.eqb_spec (Status_Platform infra) AWSPlatformType);
      [left | right]; split; (reflexivity || assumption).
  - split; [intros err; split; congruence |].
    split; [intros err [= <-]; reflexivity | discriminate].
Qed.

Lemma GetOwner_outcome_witness :
  GetOwner (Some [Sample.ccConfig])
    (λ _, Err (foreignError "not found")) (mkObjectKey "" "cluster")
  = (None, None, Some (foreignError "not found")).
Proof.
  apply (proj1 (proj2 (GetOwner_outcome (Some [Sample.ccConfig])
                         (λ _, Err (foreignError "not found"))
                         (mkObjectKey "" "cluster")))).
  reflexivity.
Defined.

(** X22. Whatever GetOwner hands out is covered by the group: the
    GroupVersionKind of every resource returned by GetOwner, for any client,
    key and platform, occurs in the result of OwnedResourcesGroup. *)
Theorem GetOwner_resources_in_group aws c key (r : Object) :
  r ∈ range (GetOwner aws c key).1.2 →
  GetObjectKind_GroupVersionKind r
    ∈ GetObjectKind_GroupVersionKind <$> range (OwnedResourcesGroup aws).
Proof.
  intros Hr. rewrite OwnedResourcesGroup_value. simpl.
  apply firstOccurrences_kinds, list_elem_of_fmap_2.
  revert Hr. unfold GetOwner, getResources.
  destruct (c key) as [infra|]; simpl; [| intros []%elem_of_nil].
  destruct (String.eqb _ _); simpl; [tauto | intros []%elem_of_nil].
Qed.

Lemma GetOwner_resources_in_group_witness :
  Sample.configMapGVK
    ∈ GetObjectKind_GroupVersionKind
        <$> range (OwnedResourcesGroup
                     (Some [Sample.ccConfig; Sample.otherConfig])).
Proof.
  apply (GetOwner_resources_in_group
           (Some [Sample.ccConfig; Sample.otherConfig])
           (λ _, Ok (mkInfrastructure "cluster" "AWS"))
           (mkObjectKey "" "cluster") Sample.otherConfig).
  simpl. right. left.
Defined.

Lemma foldl_append_requests (f : Infrastructure → Owner.Request)
    (l : list Infrastructure) (l0 : list Owner.Request) :
  foldl (λ mapObjects infra, append mapObjects (f infra)) (Some l0) l
  = Some (l0 ++ (f <$> l)).
Proof.
  revert l0. induction l as [|x l IH]; intros l0; simpl.
  - rewrite app_nil_r. reflexivity.
  - unfold append at 2. simpl. rewrite IH, <- app_assoc. reflexivity.
Qed.

(** X23. After Init has returned true, the owner holds the listed
    Infrastructure objects, of which there is at least one, and Mapper maps
    every object to one reconcile request per listed Infrastructure, in the
    order of the listing. *)
Theorem Init_then_Mapper (env : Owner.Listing) (o o' : Owner.InfrastrucutreOwner) :
  Owner.Init env o = Some (true, o') →
  ∃ items,
    env = Ok (Ok items) ∧ range items ≠ [] ∧ Owner.objects o' = items ∧
    ∀ (ObjectKeyFromObject : Infrastructure → ObjectKey) (obj : Object),
      Owner.Mapper ObjectKeyFromObject o' obj
      = Some ((λ infra, {| Owner.NamespacedName := ObjectKeyFromObject infra |})
                <$> range items).
Proof.
  unfold Owner.Init. destruct env as [[items|]|]; try discriminate.
  destruct (range items) as [|x l] eqn:Hitems; simpl; [discriminate |].
  intros [= <-]. exists items. split; [reflexivity |].
  split; [rewrite Hitems; discriminate |]. split; [reflexivity |].
  intros okf obj. unfold Owner.Mapper. simpl. rewrite Hitems.
  apply (foldl_append_requests _ (x :: l) []).
Qed.

Lemma Init_then_Mapper_witness :
  ∃ items,
    Ok (Ok (Some [mkInfrastructure "cluster" "AWS"])) = Ok (Ok items) ∧
    range items ≠ [] ∧
    Owner.objects (Owner.mkOwner (Some [mkInfrastructure "cluster" "AWS"]))
    = items ∧
    ∀ (ObjectKeyFromObject : Infrastructure → ObjectKey) (obj : Object),
      Owner.Mapper ObjectKeyFromObject
        (Owner.mkOwner (Some [mkInfrastructure "cluster" "AWS"])) obj
      = Some ((λ infra, {| Owner.NamespacedName := ObjectKeyFromObject infra |})
                <$> range items).
Proof.
  apply (Init_then_Mapper (Ok (Ok (Some [mkInfrastructure "cluster" "AWS"])))
           (Owner.mkOwner None)).
  reflexivity.
Defined.

(** X24. Init returns false, and leaves the owner as it was, exactly when
    the listing fails or lists nothing; it ends the process exactly when the
    client cannot be built; and on an owner that holds no objects Mapper
    maps every object to an empty, non-nil list of requests. *)
Theorem Init_false (env : Owner.Listing) (o : Owner.InfrastrucutreOwner) :
  (∀ o', Owner.Init env o = Some (false, o') ↔
         o' = o ∧ ∃ listed, env = Ok listed ∧
                  ∀ items, listed = Ok items → range items = []) ∧
  (Owner.Init env o = None ↔ ∃ err, env = Err err) ∧
  (range (Owner.objects o) = [] →
   ∀ okf obj, Owner.Mapper okf o obj = Some []).
Proof.
  split; [| split].
  - intros o'. unfold Owner.Init. destruct env as [[items|e]|e].
    + destruct (range items) as [|x l] eqn:Hitems; simpl.
      * split; [intros [= <-] | intros [-> _]; reflexivity].
        split; [reflexivity |]. eexists. split; [reflexivity |].
        intros items' [= <-]. exact Hitems.
      * split; [discriminate |]. intros (_ & listed & [= <-] & Hempty).
        specialize (Hempty items eq_refl). congruence.
    + split; [intros [= <-] | intros [-> _]; reflexivity].
      split; [reflexivity |]. eexists. split; [reflexivity | discriminate].
    + split; [discriminate |]. intros (_ & listed & Hl & _). discriminate.
  - unfold Owner.Init. destruct env as [[items|e]|e].
    + destruct (Nat.eqb _ _); split; try discriminate;
        intros [err Herr]; discriminate.
    + split; [discriminate | intros [err Herr]; discriminate].
    + split; eauto.
  - intros Hnone okf obj. unfold Owner.Mapper. rewrite Hnone. reflexivity.
Qed.

Lemma Init_false_witness :
  Owner.Mapper (λ infra, mkObjectKey "" (infra_Name infra))
    (Owner.mkOwner None) Sample.ccConfig
  = Some [].
Proof.
  apply (proj2 (proj2 (Init_false (Ok (Err (foreignError "forbidden")))
                         (Owner.mkOwner None)))).
  reflexivity.
Defined.

End owner.

(** ** The informer behind a watch *)

(** X25. On a consistent cache, the informer that getInformer returns is the
    informer of the object's kind, as the cache's scheme resolves it, in the
    engine stored under the object's namespace, and that engine is bound to
    that namespace. This holds whatever the scope of the kind: a
    cluster-scoped object that carries a namespace is served by the engine of
    that namespace. *)
Theorem informer_of_object (w : World) (obj : Object) (st : state)
    (i : Informer) :
  consistent st →
  (getInformer w obj st).1 = Ok i →
  GVKForObject obj (scheme st.1) = Ok (inf_kind i) ∧
  ∃ c, caches (getInformer w obj st).2.1 !! GetNamespace obj = Some c ∧
       inf_engine i = serial c ∧
       opt_Namespace (options c) = GetNamespace obj.
Proof.
  intros Hcons%(consistent_getInformer w obj) Hi.
  destruct (getInformer_frame w obj st) as (_ & Hsch & _).
  destruct (getInformer_Ok_engine w obj st i Hi) as (_ & c & Hc & Hget).
  destruct (Cache_GetInformer_Ok w c obj i Hget) as [Hgvk Hserial].
  destruct (engines_bound _ Hcons _ _ Hc) as (Hopt & _ & _).
  split.
  - rewrite <- Hsch. rewrite Hopt in Hgvk. exact Hgvk.
  - exists c. split; [exact Hc |]. split; [exact Hserial |].
    rewrite Hopt. reflexivity.
Qed.

Lemma informer_of_object_witness :
  GVKForObject (mkObject "*v1.Infrastructure" Sample.infrastructureGVK
                  "kube-system" "cluster") (scheme Sample.fresh.1)
  = Ok Sample.infrastructureGVK ∧
  ∃ c, caches (getInformer Sample.healthy
                 (mkObject "*v1.Infrastructure" Sample.infrastructureGVK
                    "kube-system" "cluster") Sample.fresh).2.1
         !! "kube-system" = Some c ∧
       0 = serial c ∧ opt_Namespace (options c) = "kube-system".
Proof.
  apply (informer_of_object Sample.healthy
           (mkObject "*v1.Infrastructure" Sample.infrastructureGVK
              "kube-system" "cluster") Sample.fresh
           {| inf_engine := 0; inf_kind := Sample.infrastructureGVK |}).
  - apply consistent_new; [reflexivity | reflexivity | simpl; lia].
  - reflexivity.
Defined.

